(** * Particle-system simulator: the stepping engine (engine.py)

    A shallow embedding of [State], [Config], [EngineRunResult] and
    [Engine] with its methods, followed by the properties of the run loop,
    the particle and predator steps and the three urgency fields.

    Numbers.  Python floats are modelled as exact rationals ([Q], compared
    with [==]); rounding, infinities and NaN are outside the model.  The two
    transcendental library functions the engine calls, the square root
    inside scipy's Euclidean distance and [math.pow], are parameters of the
    development.

    Arrays.  A numpy array is a shape tuple and a row-major buffer.  The
    engine only ever indexes two-dimensional arrays, so the array operations
    are written for matrices; the shape tuple itself is unrestricted, which
    is what the constructor's sanity check inspects. *)

From Stdlib Require Import List Arith ZArith QArith Qabs Qminmax Bool Lia Lqa.
From Stdlib Require Import String DecimalString.
Import ListNotations.

Set Implicit Arguments.

(** ** Rational helpers *)

(** Strict comparison as a boolean, next to the library's [Qle_bool]. *)
Definition Qlt_bool (x y : Q) : bool :=
  (Qnum x * QDen y <? Qnum y * QDen x)%Z.

(** Sum of a list of rationals, left to right from zero. *)
Definition Qsum (l : list Q) : Q := fold_left Qplus l 0%Q.

(** [sum_{j < n} f j]. *)
Definition Qsum_upto (n : nat) (f : nat -> Q) : Q := Qsum (map f (seq 0 n)).

(** A square root that is exact on squares of rationals (and rounds the
    numerator down elsewhere); it instantiates the square-root parameter on
    concrete inputs whose distances are rational. *)
Definition sqrt_on_squares (q : Q) : Q :=
  Qmake (Z.sqrt (Qnum q * QDen q)) (Qden q).

(** A power function that is exact for integral exponents (the exponent is
    truncated); it instantiates the [math.pow] parameter on concrete inputs
    with an integral time step. *)
Definition pow_integral (b e : Q) : Q :=
  Qpower b (Qnum e / QDen e).

(** ** A fragment of numpy *)

Module Np.

Class Default (A : Type) : Type := default : A.

#[global] Instance Default_Q : Default Q := 0%Q.
#[global] Instance Default_bool : Default bool := false.
#[global] Instance Default_nat : Default nat := 0%nat.

(** An array: its [shape] tuple and its elements in row-major order. *)
Record ndarray (A : Type) : Type := mk_ndarray
  { shape : list nat;
    data : list A }.

Arguments mk_ndarray {A} shape data.

(** Number of elements of an array of the given shape. *)
Definition size (sh : list nat) : nat := fold_right Nat.mul 1%nat sh.

(** [a.shape[k]] for an axis the array has.  On a missing axis, where Python
    raises [IndexError], the model reads [0]; the constructor models that
    error itself, and the properties of [run] are stated for engines whose
    arrays are two-dimensional. *)
Definition axis {A} (x : ndarray A) (k : nat) : nat := nth k (shape x) 0%nat.

(** [a[i, k]] of a matrix. *)
Definition get2 {A} `{Default A} (x : ndarray A) (i k : nat) : A :=
  nth (i * axis x 1 + k) (data x) default.

(** The [n] by [d] matrix whose element [(i, k)] is [f i k]. *)
Definition tabulate2 {A} (n d : nat) (f : nat -> nat -> A) : ndarray A :=
  mk_ndarray [n; d] (flat_map (fun i => map (f i) (seq 0 d)) (seq 0 n)).

(** [np.zeros(shape)], and [np.zeros_like(x, dtype=float)]. *)
Definition zeros (sh : list nat) : ndarray Q :=
  mk_ndarray sh (repeat 0%Q (size sh)).

Definition zeros_like {A} (x : ndarray A) : ndarray Q := zeros (shape x).

(** Element-wise operations on matrices; [x] fixes the shape of the result
    (both operands have the same shape wherever the engine combines two
    arrays without broadcasting). *)
Definition map2d {A B} `{Default A} (f : A -> B) (x : ndarray A) : ndarray B :=
  tabulate2 (axis x 0) (axis x 1) (fun i k => f (get2 x i k)).

Definition zip2d {A B C} `{Default A} `{Default B}
    (f : A -> B -> C) (x : ndarray A) (y : ndarray B) : ndarray C :=
  tabulate2 (axis x 0) (axis x 1) (fun i k => f (get2 x i k) (get2 y i k)).

Definition add : ndarray Q -> ndarray Q -> ndarray Q := zip2d Qplus.
Definition subtract : ndarray Q -> ndarray Q -> ndarray Q := zip2d Qminus.
Definition multiply : ndarray Q -> ndarray Q -> ndarray Q := zip2d Qmult.

(** [x * c] and [x / c] for a scalar [c]. *)
Definition scale (x : ndarray Q) (c : Q) : ndarray Q :=
  map2d (fun e => (e * c)%Q) x.

(** Division is the one of [Q], where [e / 0] is [0]; float division by zero
    gives an infinity or NaN instead, so a property that depends on the
    quotient assumes a divisor different from zero. *)
Definition divide_scalar (x : ndarray Q) (c : Q) : ndarray Q :=
  map2d (fun e => (e / c)%Q) x.

(** [x * w[:, c].reshape((-1, 1))]: row [i] of [x] is multiplied by the
    single entry [w[i, c]], broadcast along the second axis. *)
Definition multiply_column (x w : ndarray Q) (c : nat) : ndarray Q :=
  tabulate2 (axis x 0) (axis x 1) (fun i k => (get2 x i k * get2 w i c)%Q).

(** [x > c] and [x <= c] against a scalar, and [np.logical_and]. *)
Definition greater (x : ndarray Q) (c : Q) : ndarray bool :=
  map2d (fun e => Qlt_bool c e) x.

Definition less_equal (x : ndarray Q) (c : Q) : ndarray bool :=
  map2d (fun e => Qle_bool e c) x.

Definition logical_and : ndarray bool -> ndarray bool -> ndarray bool :=
  zip2d andb.

(** [np.count_nonzero(m, axis=1, keepdims=1)]: an [(n, 1)] array of the
    number of true entries of each row. *)
Definition count_nonzero_rows (m : ndarray bool) : ndarray nat :=
  tabulate2 (axis m 0) 1
    (fun i _ => List.length (filter (fun j => get2 m i j) (seq 0 (axis m 1)))).

(** [np.divide(x1, x2, where=mask, out=out)]: the quotient is computed and
    stored only where [mask] holds; elsewhere [out] keeps its value.  The
    operands are given as their broadcast views, that is, as functions of
    the index in [out]. *)
Definition divide_where (x1 x2 : nat -> nat -> Q)
    (mask : ndarray bool) (out : ndarray Q) : ndarray Q :=
  tabulate2 (axis out 0) (axis out 1)
    (fun i j => if get2 mask i j then (x1 i j / x2 i j)%Q else get2 out i j).

(** [x @ y] for matrices. *)
Definition matmul (x y : ndarray Q) : ndarray Q :=
  tabulate2 (axis x 0) (axis y 1)
    (fun i k => Qsum_upto (axis x 1) (fun j => (get2 x i j * get2 y j k)%Q)).

(** [np.matmul(w.reshape((n, 1, m)), t).reshape(n, -1)] for a weight matrix
    [w] of shape [(n, m)] and a stack [t] of shape [(n, m, d)], given by its
    index function: row [i] is [w[i, :] @ t[i]]. *)
Definition matmul_rows (n m d : nat) (w : ndarray Q)
    (t : nat -> nat -> nat -> Q) : ndarray Q :=
  tabulate2 n d (fun i k => Qsum_upto m (fun j => (get2 w i j * t i j k)%Q)).

(** [np.array([x0, x1, x2])]: three arrays of one shape stacked along a new
    leading axis. *)
Definition stack3 {A} (x0 x1 x2 : ndarray A) : ndarray A :=
  mk_ndarray (3%nat :: shape x0) (data x0 ++ data x1 ++ data x2).

(** [x[j]]: the [j]-th slice along the leading axis. *)
Definition slice {A} (x : ndarray A) (j : nat) : ndarray A :=
  let sh := tl (shape x) in
  mk_ndarray sh (firstn (size sh) (skipn (j * size sh) (data x))).

(** Row [i] of a matrix, as a point. *)
Definition row {A} `{Default A} (x : ndarray A) (i : nat) : list A :=
  map (get2 x i) (seq 0 (axis x 1)).

(** Two arrays hold the same numbers: equal shapes and buffers equal
    element by element as rationals. *)
Definition array_eq (x y : ndarray Q) : Prop :=
  shape x = shape y /\ Forall2 Qeq (data x) (data y).

End Np.

Import Np.

(** ** Python values the engine handles *)

(** [range(lo, hi)]. *)
Definition range (lo hi : Z) : list Z :=
  map (fun k => (lo + Z.of_nat k)%Z) (seq 0 (Z.to_nat (hi - lo))).

(** Equality of shape tuples. *)
Fixpoint tuple_eqb (s t : list nat) : bool :=
  match s, t with
  | [], [] => true
  | x :: s', y :: t' => Nat.eqb x y && tuple_eqb s' t'
  | _, _ => false
  end.

(** [str] of a tuple of integers: [()], [(2,)], [(2, 3)]. *)
Definition show_nat (n : nat) : string :=
  NilEmpty.string_of_uint (Nat.to_uint n).

Fixpoint show_items (t : list nat) : string :=
  match t with
  | [] => EmptyString
  | [x] => show_nat x
  | x :: t' => show_nat x ++ ", " ++ show_items t'
  end.

Definition show_tuple (t : list nat) : string :=
  match t with
  | [x] => "(" ++ show_nat x ++ ",)"
  | _ => "(" ++ show_items t ++ ")"
  end.

Inductive exception : Type :=
| ValueError (msg : string)
| IndexError (msg : string).

(** Outcome of a call that may raise. *)
Inductive result (A : Type) : Type :=
| Ok (x : A)
| Raise (e : exception).

Arguments Ok {A} x.
Arguments Raise {A} e.

(** ** The external collaborators *)

(** Modelled from the spec: the noise source [Randomizer] (module
    [randomizer] is not part of the sources).  Its state is a sequence of
    multiplicative factors and a cursor into it that only advances. *)
Record Randomizer : Type := mk_Randomizer
  { factors : nat -> Q;
    cursor : nat }.

(** Modelled from the spec: [Randomizer.gen_epsilon_matrix(shape)] returns
    an array of the given shape holding one fresh factor per element, and
    advances the cursor past them. *)
Definition gen_epsilon_matrix (r : Randomizer) (sh : list nat)
  : ndarray Q * Randomizer :=
  (mk_ndarray sh (map (factors r) (seq (cursor r) (size sh))),
   mk_Randomizer (factors r) (cursor r + size sh)).

(** The identity noise source: every factor is exactly one. *)
Definition identity_noise (r : Randomizer) : Prop :=
  forall k, factors r k = 1%Q.

(** Modelled from the spec: [Utils.inplace_clip_by_abs(array, bound)]
    (module [util] is not part of the sources) clamps every element to
    [[-bound, +bound]]: first from below, then from above. *)
Definition clip_by_abs (bound x : Q) : Q := Qmin (Qmax x (- bound)) bound.

Definition inplace_clip_by_abs (x : ndarray Q) (bound : Q) : ndarray Q :=
  map2d (clip_by_abs bound) x.

(** ** Data model *)

Record State : Type := mk_State
  { p : ndarray Q;
    v : ndarray Q;
    a : ndarray Q;
    pred_p : ndarray Q;
    pred_v : ndarray Q;
    pred_a : ndarray Q }.

Record Config : Type := mk_Config
  { v_max : Q;
    v_decay : Q;
    a_max : Q;
    d_max : Q;
    u_max : Q;
    u1_p : Q;
    u2_p : Q;
    u2_dopt : Q;
    u3_p : Q;
    u3_dmax : Q;
    uw : ndarray Q }.

Record EngineRunResult : Type := mk_EngineRunResult
  { states : list State;
    urgencies : option (list (ndarray Q)) }.

Record Engine : Type := mk_Engine
  { _state : State;
    _cfg : Config;
    _rand : Randomizer }.

(** Assignments to the attributes of [self._state] and to [self._rand]. *)
Definition set_p (self : Engine) (x : ndarray Q) : Engine :=
  let s := _state self in
  mk_Engine (mk_State x (v s) (a s) (pred_p s) (pred_v s) (pred_a s))
    (_cfg self) (_rand self).

Definition set_v (self : Engine) (x : ndarray Q) : Engine :=
  let s := _state self in
  mk_Engine (mk_State (p s) x (a s) (pred_p s) (pred_v s) (pred_a s))
    (_cfg self) (_rand self).

Definition set_a (self : Engine) (x : ndarray Q) : Engine :=
  let s := _state self in
  mk_Engine (mk_State (p s) (v s) x (pred_p s) (pred_v s) (pred_a s))
    (_cfg self) (_rand self).

Definition set_pred_p (self : Engine) (x : ndarray Q) : Engine :=
  let s := _state self in
  mk_Engine (mk_State (p s) (v s) (a s) x (pred_v s) (pred_a s))
    (_cfg self) (_rand self).

Definition set_pred_v (self : Engine) (x : ndarray Q) : Engine :=
  let s := _state self in
  mk_Engine (mk_State (p s) (v s) (a s) (pred_p s) x (pred_a s))
    (_cfg self) (_rand self).

Definition set_pred_a (self : Engine) (x : ndarray Q) : Engine :=
  let s := _state self in
  mk_Engine (mk_State (p s) (v s) (a s) (pred_p s) (pred_v s) x)
    (_cfg self) (_rand self).

(** [self._rand.gen_epsilon_matrix(shape)]: the draw and the engine whose
    noise source has advanced. *)
Definition draw (self : Engine) (sh : list nat) : ndarray Q * Engine :=
  let r := gen_epsilon_matrix (_rand self) sh in
  (fst r, mk_Engine (_state self) (_cfg self) (snd r)).

(** ** Engine construction *)

Definition inconsistent_shapes (state : State) (cfg : Config) : string :=
  "Inconsistent shapes: p=" ++ show_tuple (shape (p state))
  ++ " v=" ++ show_tuple (shape (v state))
  ++ " a=" ++ show_tuple (shape (a state))
  ++ " uw=" ++ show_tuple (shape (uw cfg)).

(** [Engine.__init__]; [rand] is the freshly constructed [Randomizer()].
    The three tests are evaluated left to right with short-circuit [or];
    the third reads [p.shape[0]], which raises [IndexError] on the empty
    tuple. *)
Definition __init__ (state : State) (cfg : Config) (rand : Randomizer)
  : result Engine :=
  if negb (tuple_eqb (shape (p state)) (shape (v state))) then
    Raise (ValueError (inconsistent_shapes state cfg))
  else if negb (tuple_eqb (shape (p state)) (shape (a state))) then
    Raise (ValueError (inconsistent_shapes state cfg))
  else
    match shape (p state) with
    | [] => Raise (IndexError "tuple index out of range")
    | n :: _ =>
        if negb (tuple_eqb (shape (uw cfg)) [n; 3%nat]) then
          Raise (ValueError (inconsistent_shapes state cfg))
        else Ok (mk_Engine state cfg rand)
    end.

(** ** A small scene

    Two particles on a line at [1] and [10], at rest, and one predator at
    [3] with unit acceleration.  With a sight distance of [5] and both
    repulsion ranges equal to [1], nothing is in range of anything. *)

Definition scene : State :=
  mk_State
    (mk_ndarray [2; 1]%nat [1; 10]%Q)
    (mk_ndarray [2; 1]%nat [0; 0]%Q)
    (mk_ndarray [2; 1]%nat [0; 0]%Q)
    (mk_ndarray [1; 1]%nat [3%Q])
    (mk_ndarray [1; 1]%nat [0%Q])
    (mk_ndarray [1; 1]%nat [1%Q]).

Definition scene_config : Config :=
  mk_Config 2 1 3 5 1 1 1 1 1 1
    (mk_ndarray [2; 3]%nat [1; 1; 1; 1; 1; 1]%Q).

(** A configuration with ranges wide enough that everything in the scene
    is in range of everything else. *)
Definition wide_config : Config :=
  mk_Config 2 1 3 10 1 1 1 10 1 10
    (mk_ndarray [2; 3]%nat [1; 1; 1; 1; 1; 1]%Q).

(** A configuration whose weight matrix has a fourth column. *)
Definition misshapen_config : Config :=
  mk_Config 2 1 3 5 1 1 1 1 1 1
    (mk_ndarray [2; 4]%nat [1; 1; 1; 1; 1; 1; 1; 1]%Q).

(** The scene seen with wide ranges and jitter, and with a first particle
    that gives no weight to any urgency. *)
Definition indifferent_config : Config :=
  mk_Config 2 1 3 10 1 1 1 10 1 10
    (mk_ndarray [2; 3]%nat [0; 0; 0; 1; 1; 1]%Q).

(** A state whose six arrays are zero-dimensional. *)
Definition scalar_state : State :=
  mk_State (mk_ndarray [] [1%Q]) (mk_ndarray [] [0%Q]) (mk_ndarray [] [0%Q])
    (mk_ndarray [] [3%Q]) (mk_ndarray [] [0%Q]) (mk_ndarray [] [1%Q]).

(** A noise source fixed at the identity, and one whose every factor is
    [11/10]. *)
Definition quiet : Randomizer := mk_Randomizer (fun _ => 1%Q) 0.
Definition jittery : Randomizer := mk_Randomizer (fun _ => (11 # 10)%Q) 0.

Definition quiet_engine : Engine := mk_Engine scene scene_config quiet.
Definition jittery_engine : Engine := mk_Engine scene scene_config jittery.
Definition wide_engine : Engine := mk_Engine scene wide_config jittery.
Definition indifferent_engine : Engine :=
  mk_Engine scene indifferent_config jittery.

(** ** The stepping engine *)

Section Stepping.

(** The square root used by scipy's Euclidean metric, and [math.pow]. *)
Variable sqrt : Q -> Q.
Variable pow : Q -> Q -> Q.

(** Euclidean distance between two points. *)
Definition euclidean (x y : list Q) : Q :=
  sqrt (Qsum (map (fun c => ((fst c - snd c) * (fst c - snd c))%Q) (combine x y))).

(** [scipy.spatial.distance.squareform(scipy.spatial.distance.pdist(x))]:
    [pdist] computes the distance of every pair [i < j] once, and
    [squareform] lays them out symmetrically around a zero diagonal. *)
Definition squareform_pdist (x : ndarray Q) : ndarray Q :=
  tabulate2 (axis x 0) (axis x 0)
    (fun i j =>
       if Nat.eqb i j then 0%Q
       else euclidean (row x (Nat.min i j)) (row x (Nat.max i j))).

(** [scipy.spatial.distance.cdist(xa, xb)]. *)
Definition cdist (xa xb : ndarray Q) : ndarray Q :=
  tabulate2 (axis xa 0) (axis xb 0)
    (fun i j => euclidean (row xa i) (row xb j)).

(** The range mask shared by the three urgencies:
    [np.logical_and(distances > 0, distances <= bound)]. *)
Definition in_range_mask (distances : ndarray Q) (bound : Q) : ndarray bool :=
  logical_and (greater distances 0%Q) (less_equal distances bound).

(** The local [weights] of [_calculate_urgency1]: zero-initialised, then
    [1.0 / count] written where the mask holds; the [(n, 1)] count column is
    broadcast along its row. *)
Definition u1_weights (cfg : Config) (distances : ndarray Q) : ndarray Q :=
  let in_range := in_range_mask distances (d_max cfg) in
  let weights := zeros_like in_range in
  let counts := count_nonzero_rows in_range in
  divide_where
    (fun _ _ => 1%Q)
    (fun i _ => inject_Z (Z.of_nat (get2 counts i 0)))
    in_range weights.

Definition _calculate_urgency1 (self : Engine) (distances : ndarray Q)
  : ndarray Q * Engine :=
  let cfg := _cfg self in
  let weights := u1_weights cfg distances in
  let baricenters := matmul weights (p (_state self)) in
  let '(eps, self) := draw self (shape (p (_state self))) in
  let u1_vector := multiply (subtract baricenters (p (_state self))) eps in
  (multiply_column (scale u1_vector (u1_p cfg)) (uw cfg) 0, self).

(** The local [weights] of [_calculate_urgency2]:
    [(u2_dopt - distance) / (u2_dopt * distance)] where the mask holds. *)
Definition u2_weights (cfg : Config) (distances : ndarray Q) : ndarray Q :=
  let in_range := in_range_mask distances (u2_dopt cfg) in
  let weights := zeros_like in_range in
  divide_where
    (fun i j => (u2_dopt cfg - get2 distances i j)%Q)
    (fun i j => (u2_dopt cfg * get2 distances i j)%Q)
    in_range weights.

Definition _calculate_urgency2 (self : Engine) (distances : ndarray Q)
  : ndarray Q * Engine :=
  let cfg := _cfg self in
  let weights := u2_weights cfg distances in
  let P := p (_state self) in
  let distance_vectors := fun i j k => (get2 P i k - get2 P j k)%Q in
  let number_of_points := axis P 0 in
  let '(eps, self) := draw self (shape P) in
  let u2_vector :=
    multiply
      (matmul_rows number_of_points number_of_points (axis P 1)
         weights distance_vectors)
      eps in
  (multiply_column (scale u2_vector (u2_p cfg)) (uw cfg) 1, self).

(** The locals [distances_from_predators] and [weights] of
    [_calculate_urgency3]. *)
Definition distances_from_predators (state : State) : ndarray Q :=
  cdist (p state) (pred_p state).

Definition u3_weights (cfg : Config) (state : State) : ndarray Q :=
  let distances := distances_from_predators state in
  let in_range := in_range_mask distances (u3_dmax cfg) in
  let weights := zeros_like in_range in
  divide_where
    (fun i j => (u3_dmax cfg - get2 distances i j)%Q)
    (fun i j => (u3_dmax cfg * get2 distances i j)%Q)
    in_range weights.

Definition _calculate_urgency3 (self : Engine) (__unused_distances : ndarray Q)
  : ndarray Q * Engine :=
  let cfg := _cfg self in
  let weights := u3_weights cfg (_state self) in
  let P := p (_state self) in
  let PP := pred_p (_state self) in
  let distance_vectors := fun i j k => (get2 P i k - get2 PP j k)%Q in
  let number_of_points := axis P 0 in
  let number_of_predators := axis PP 0 in
  let '(eps, self) := draw self (shape P) in
  let u3_vector :=
    multiply
      (matmul_rows number_of_points number_of_predators (axis P 1)
         weights distance_vectors)
      eps in
  (multiply_column (scale u3_vector (u3_p cfg)) (uw cfg) 2, self).

(** The first half of [_step_particles]: the three urgencies, in the order
    in which they consume noise. *)
Definition step_urgencies (self : Engine)
  : (ndarray Q * ndarray Q * ndarray Q) * Engine :=
  let distances := squareform_pdist (p (_state self)) in
  let '(u1, self) := _calculate_urgency1 self distances in
  let '(u2, self) := _calculate_urgency2 self distances in
  let '(u3, self) := _calculate_urgency3 self distances in
  ((u1, u2, u3), self).

(** The acceleration as it stands after [Utils.inplace_clip_by_abs] and
    before the noise is applied. *)
Definition clipped_acceleration (cfg : Config) (u1 u2 u3 : ndarray Q)
  : ndarray Q :=
  let u_tot := add (add u1 u2) u3 in
  inplace_clip_by_abs
    (scale (divide_scalar u_tot (u_max cfg)) (a_max cfg)) (a_max cfg).

Definition _step_particles (self : Engine) (timestep : Q)
    (return_urgency_vectors : bool) : option (ndarray Q) * Engine :=
  let cfg := _cfg self in
  let '((u1, u2, u3), self) := step_urgencies self in
  let self := set_a self (clipped_acceleration cfg u1 u2 u3) in
  let '(eps, self) := draw self (shape (a (_state self))) in
  let self := set_a self (multiply (a (_state self)) eps) in
  let self := set_v self (scale (v (_state self)) (pow (v_decay cfg) timestep)) in
  let self :=
    set_v self (add (v (_state self)) (scale (a (_state self)) timestep)) in
  let self := set_v self (inplace_clip_by_abs (v (_state self)) (v_max cfg)) in
  let self :=
    set_p self (add (p (_state self)) (scale (v (_state self)) timestep)) in
  (if return_urgency_vectors then Some (stack3 u1 u2 u3) else None, self).

Definition _step_predators (self : Engine) (timestep : Q) : Engine :=
  let '(eps, self) := draw self (shape (pred_a (_state self))) in
  let self := set_pred_a self (multiply (pred_a (_state self)) eps) in
  let self :=
    set_pred_v self
      (add (pred_v (_state self)) (scale (pred_a (_state self)) timestep)) in
  set_pred_p self
    (add (pred_p (_state self)) (scale (pred_v (_state self)) timestep)).

(** The mutable locals of [run]: the engine itself and the two lists. *)
Record RunLoop : Type := mk_RunLoop
  { loop_self : Engine;
    loop_states : list State;
    loop_urgency_vectors : list (ndarray Q) }.

(** One pass through the body of the [for] loop of [run].  When the flag is
    set, [_step_particles] has returned an array, which is appended. *)
Definition run_body (timestep : Q) (skip_initial_states : Z)
    (return_urgency_vectors : bool) (l : RunLoop) (iteration : Z) : RunLoop :=
  let '(urgencies, self) :=
    _step_particles (loop_self l) timestep return_urgency_vectors in
  let self := _step_predators self timestep in
  if (skip_initial_states - 1 <? iteration)%Z then
    mk_RunLoop self
      (loop_states l ++ [_state self])
      (if return_urgency_vectors then
         match urgencies with
         | Some u => loop_urgency_vectors l ++ [u]
         | None => loop_urgency_vectors l
         end
       else loop_urgency_vectors l)
  else mk_RunLoop self (loop_states l) (loop_urgency_vectors l).

(** [Engine.run]: the result and the engine as the run leaves it.  The
    model is total: it follows the code on engines whose arrays have the
    documented shapes and at least one particle ([well_shaped] below), where
    neither [p.shape[1]] nor the array operations of the steps can raise;
    elsewhere the code raises and the model does not say what. *)
Definition run (self : Engine) (timestep : Q) (iterations : Z)
    (skip_initial_states : Z) (return_urgency_vectors : bool)
  : EngineRunResult * Engine :=
  let P := p (_state self) in
  let start :=
    if (0 <? skip_initial_states)%Z then mk_RunLoop self [] []
    else mk_RunLoop self [_state self] [zeros [3%nat; axis P 0; axis P 1]] in
  let l :=
    fold_left (run_body timestep skip_initial_states return_urgency_vectors)
      (range 1 (iterations + 1)) start in
  (mk_EngineRunResult (loop_states l)
     (if return_urgency_vectors then Some (loop_urgency_vectors l) else None),
   loop_self l).

(** One full iteration on the engine alone: particles, then predators. *)
Definition step (timestep : Q) (self : Engine) : Engine :=
  _step_predators (snd (_step_particles self timestep false)) timestep.


(** ** Array lemmas *)

Lemma nth_map_seq A (g : nat -> A) (s len k : nat) (dflt : A) :
  (k < len)%nat -> nth k (map g (seq s len)) dflt = g (s + k)%nat.
Proof.
  intros Hk.
  rewrite (nth_indep _ dflt (g 0%nat)) by (rewrite length_map, length_seq; exact Hk).
  rewrite map_nth. f_equal. apply seq_nth. exact Hk.
Qed.

Lemma nth_flat_map_rows A (f : nat -> nat -> A) (d : nat) (dflt : A) :
  forall n s i k, (i < n)%nat -> (k < d)%nat ->
    nth (i * d + k) (flat_map (fun r => map (f r) (seq 0 d)) (seq s n)) dflt
    = f (s + i)%nat k.
Proof.
  induction n as [|n IH]; intros s i k Hi Hk; [lia|].
  cbn [seq flat_map].
  destruct i as [|i].
  - rewrite app_nth1 by (rewrite length_map, length_seq; exact Hk).
    cbn [Nat.mul Nat.add]. rewrite nth_map_seq by exact Hk.
    now rewrite Nat.add_0_r.
  - rewrite app_nth2 by (rewrite length_map, length_seq; lia).
    rewrite length_map, length_seq.
    replace (S i * d + k - d)%nat with (i * d + k)%nat by lia.
    rewrite IH by lia. f_equal. lia.
Qed.

Lemma length_flat_map_rows A (f : nat -> nat -> A) (d : nat) :
  forall n s,
    List.length (flat_map (fun r => map (f r) (seq 0 d)) (seq s n)) = (n * d)%nat.
Proof.
  induction n as [|n IH]; intros s; [reflexivity|].
  cbn [seq flat_map]. rewrite length_app, length_map, length_seq, IH. lia.
Qed.

Lemma get2_tabulate2 A `{Default A} (n d : nat) (f : nat -> nat -> A) (i k : nat) :
  (i < n)%nat -> (k < d)%nat -> get2 (tabulate2 n d f) i k = f i k.
Proof.
  intros Hi Hk. unfold get2, tabulate2, axis. cbn [shape data nth].
  now rewrite nth_flat_map_rows.
Qed.

Lemma shape_tabulate2 A (n d : nat) (f : nat -> nat -> A) :
  shape (tabulate2 n d f) = [n; d].
Proof. reflexivity. Qed.

Lemma length_data_tabulate2 A (n d : nat) (f : nat -> nat -> A) :
  List.length (data (tabulate2 n d f)) = (n * d)%nat.
Proof. apply length_flat_map_rows. Qed.

Lemma axis_of_shape A (x : ndarray A) (n d : nat) :
  shape x = [n; d] -> axis x 0 = n /\ axis x 1 = d.
Proof. unfold axis. intros ->. split; reflexivity. Qed.

Lemma get2_zeros (n d i k : nat) : get2 (zeros [n; d]) i k = 0%Q.
Proof.
  unfold get2, zeros. cbn [data]. generalize (i * axis (mk_ndarray [n; d] (repeat 0%Q (size [n; d]))) 1 + k)%nat.
  generalize (size [n; d]). intros len idx. revert idx.
  induction len as [|len IH]; intros [|idx]; cbn; auto.
Qed.

Lemma get2_gen_epsilon_matrix (r : Randomizer) (n d i k : nat) :
  (i < n)%nat -> (k < d)%nat ->
  get2 (fst (gen_epsilon_matrix r [n; d])) i k = factors r (cursor r + (i * d + k))%nat.
Proof.
  intros Hi Hk. unfold get2, gen_epsilon_matrix, axis. cbn [fst shape data nth size fold_right].
  apply nth_map_seq. nia.
Qed.

(** ** Arithmetic lemmas *)

Lemma Qlt_bool_iff (x y : Q) : Qlt_bool x y = true <-> (x < y)%Q.
Proof. unfold Qlt_bool, Qlt. apply Z.ltb_lt. Qed.

Lemma Qsum_acc (l : list Q) (acc : Q) :
  (fold_left Qplus l acc == acc + Qsum l)%Q.
Proof.
  unfold Qsum. revert acc.
  induction l as [|x l IH]; intros acc; cbn [fold_left].
  - ring.
  - rewrite IH, (IH (0 + x)%Q). ring.
Qed.

Lemma Qsum_cons (x : Q) (l : list Q) : (Qsum (x :: l) == x + Qsum l)%Q.
Proof. unfold Qsum at 1. cbn [fold_left]. rewrite Qsum_acc. ring. Qed.

Lemma Qsum_zero (l : list Q) :
  Forall (fun x => (x == 0)%Q) l -> (Qsum l == 0)%Q.
Proof.
  induction 1 as [|x l Hx _ IH].
  - reflexivity.
  - rewrite Qsum_cons, Hx, IH. ring.
Qed.

Lemma Qsum_upto_zero (n : nat) (f : nat -> Q) :
  (forall j, (j < n)%nat -> (f j == 0)%Q) -> (Qsum_upto n f == 0)%Q.
Proof.
  intros Hf. apply Qsum_zero, Forall_forall.
  intros x Hx. apply in_map_iff in Hx. destruct Hx as (j & <- & Hj).
  apply in_seq in Hj. apply Hf. lia.
Qed.

(** The clipper keeps every number within the bound, for a bound that is
    not negative. *)
Lemma clip_by_abs_bounded (bound x : Q) :
  (0 <= bound)%Q -> (Qabs (clip_by_abs bound x) <= bound)%Q.
Proof.
  intros Hb. unfold clip_by_abs. apply Qabs_Qle_condition. split.
  - apply Q.min_glb.
    + apply Q.le_max_r.
    + lra.
  - apply Q.le_min_r.
Qed.

(** Within the bound the clipper changes nothing. *)
Lemma clip_by_abs_inside (bound x : Q) :
  (- bound <= x <= bound)%Q -> (clip_by_abs bound x == x)%Q.
Proof.
  intros [Hl Hu]. unfold clip_by_abs.
  rewrite (Q.max_l x (- bound)) by exact Hl.
  apply Q.min_l. exact Hu.
Qed.

(** ** Engine construction *)

Lemma tuple_eqb_eq (s t : list nat) : tuple_eqb s t = true <-> s = t.
Proof.
  revert t. induction s as [|x s IH]; intros [|y t]; cbn [tuple_eqb];
    try (split; [discriminate | congruence]); try tauto.
  rewrite andb_true_iff, Nat.eqb_eq, IH. split.
  - intros [-> ->]. reflexivity.
  - intros E. injection E as -> ->. auto.
Qed.

Lemma tuple_eqb_neq (s t : list nat) : tuple_eqb s t = false <-> s <> t.
Proof.
  rewrite <- tuple_eqb_eq. destruct (tuple_eqb s t); split; congruence.
Qed.

(** The condition under which the sanity check fires. *)
Definition shape_mismatch (state : State) (cfg : Config) : Prop :=
  shape (p state) <> shape (v state)
  \/ shape (p state) <> shape (a state)
  \/ exists n, nth_error (shape (p state)) 0 = Some n
               /\ shape (uw cfg) <> [n; 3%nat].

(** C5.  Engine construction raises the shape-mismatch [ValueError] exactly
    when [p.shape != v.shape], or [p.shape != a.shape], or
    [uw.shape != (p.shape[0], 3)]; the message then reports the four shapes of
    [p], [v], [a] and [uw]; and when none of the three tests fires (and
    [p.shape[0]] exists) the engine is built from the arguments as they are,
    whatever the predator arrays and the stored numbers: nothing else is
    inspected. *)
Theorem init_shape_check (state : State) (cfg : Config) (rand : Randomizer) :
  ((exists msg, __init__ state cfg rand = Raise (ValueError msg))
   <-> shape_mismatch state cfg)
  /\ (forall msg, __init__ state cfg rand = Raise (ValueError msg) ->
        msg = ("Inconsistent shapes: p=" ++ show_tuple (shape (p state))
               ++ " v=" ++ show_tuple (shape (v state))
               ++ " a=" ++ show_tuple (shape (a state))
               ++ " uw=" ++ show_tuple (shape (uw cfg)))%string
        /\ forall e, __init__ state cfg rand <> Ok e)
  /\ (~ shape_mismatch state cfg -> shape (p state) <> [] ->
        __init__ state cfg rand = Ok (mk_Engine state cfg rand)).
Proof.
  unfold __init__, shape_mismatch.
  destruct (tuple_eqb (shape (p state)) (shape (v state))) eqn:Ev; cbn [negb].
  2:{ apply tuple_eqb_neq in Ev.
      split; [split; [auto | eauto] | split].
      - intros msg [= <-]. split; [reflexivity | congruence].
      - tauto. }
  destruct (tuple_eqb (shape (p state)) (shape (a state))) eqn:Ea; cbn [negb].
  2:{ apply tuple_eqb_neq in Ea.
      split; [split; [auto | eauto] | split].
      - intros msg [= <-]. split; [reflexivity | congruence].
      - tauto. }
  apply tuple_eqb_eq in Ev, Ea.
  destruct (shape (p state)) as [|n rest] eqn:Ep.
  { split; [split | split].
    - intros [msg [=]].
    - intros [H|[H|(n & [=] & _)]]; congruence.
    - discriminate.
    - congruence. }
  destruct (tuple_eqb (shape (uw cfg)) [n; 3%nat]) eqn:Eu; cbn [negb].
  - apply tuple_eqb_eq in Eu. split; [split | split].
    + intros [msg [=]].
    + intros [H|[H|(n' & [= <-] & H)]]; congruence.
    + discriminate.
    + reflexivity.
  - apply tuple_eqb_neq in Eu. split; [split | split].
    + intros _. right. right. exists n. split; [reflexivity | exact Eu].
    + eauto.
    + intros msg [= <-]. split; [| congruence].
      unfold inconsistent_shapes. now rewrite Ep.
    + intros H _. exfalso. apply H. right. right. exists n.
      split; [reflexivity | exact Eu].
Qed.

(** ** The particle and predator steps, field by field *)

(** The noise source after [k] more factors have been consumed. *)
Definition advance (r : Randomizer) (k : nat) : Randomizer :=
  mk_Randomizer (factors r) (cursor r + k).

(** The engine after the three urgencies have drawn their noise. *)
Lemma step_urgencies_snd (self : Engine) :
  snd (step_urgencies self)
  = mk_Engine (_state self) (_cfg self)
      (advance (advance (advance (_rand self)
         (size (shape (p (_state self)))))
         (size (shape (p (_state self)))))
         (size (shape (p (_state self))))).
Proof. reflexivity. Qed.

(** The noise matrix that multiplies the clipped acceleration: the fourth
    draw of the particle step. *)
Definition acceleration_noise (self : Engine) : ndarray Q :=
  let us := fst (step_urgencies self) in
  let c := clipped_acceleration (_cfg self) (fst (fst us)) (snd (fst us)) (snd us) in
  fst (draw (snd (step_urgencies self)) (shape c)).

(** The acceleration stored by the particle step is the clipped
    acceleration times the noise drawn after clipping. *)
Lemma step_particles_a (self : Engine) (timestep : Q) (flag : bool) :
  a (_state (snd (_step_particles self timestep flag)))
  = let us := fst (step_urgencies self) in
    multiply
      (clipped_acceleration (_cfg self) (fst (fst us)) (snd (fst us)) (snd us))
      (acceleration_noise self).
Proof. reflexivity. Qed.

(** The velocity stored by the particle step. *)
Lemma step_particles_v (self : Engine) (timestep : Q) (flag : bool) :
  v (_state (snd (_step_particles self timestep flag)))
  = let a' := a (_state (snd (_step_particles self timestep flag))) in
    inplace_clip_by_abs
      (add (scale (v (_state self)) (pow (v_decay (_cfg self)) timestep))
           (scale a' timestep))
      (v_max (_cfg self)).
Proof. reflexivity. Qed.

(** The flag only selects what is returned; the engine steps the same. *)
Lemma step_particles_flag (self : Engine) (timestep : Q) (flag : bool) :
  snd (_step_particles self timestep flag)
  = snd (_step_particles self timestep false).
Proof. reflexivity. Qed.

(** What the particle step returns when the urgency vectors are asked for. *)
Lemma step_particles_fst (self : Engine) (timestep : Q) :
  fst (_step_particles self timestep true)
  = let us := fst (step_urgencies self) in
    Some (stack3 (fst (fst us)) (snd (fst us)) (snd us)).
Proof. reflexivity. Qed.

(** The particle step leaves the predators and the configuration alone; the
    predator step leaves the particles and the configuration alone. *)
Lemma step_particles_frame (self : Engine) (timestep : Q) (flag : bool) :
  let self' := snd (_step_particles self timestep flag) in
  pred_p (_state self') = pred_p (_state self)
  /\ pred_v (_state self') = pred_v (_state self)
  /\ pred_a (_state self') = pred_a (_state self)
  /\ _cfg self' = _cfg self
  /\ factors (_rand self') = factors (_rand self).
Proof. repeat split. Qed.

Lemma step_predators_frame (self : Engine) (timestep : Q) :
  let self' := _step_predators self timestep in
  p (_state self') = p (_state self)
  /\ v (_state self') = v (_state self)
  /\ a (_state self') = a (_state self)
  /\ _cfg self' = _cfg self
  /\ factors (_rand self') = factors (_rand self).
Proof. repeat split. Qed.

(** The predator acceleration after a predator step: the stored one times
    the fresh noise matrix. *)
Lemma step_predators_pred_a (self : Engine) (timestep : Q) :
  pred_a (_state (_step_predators self timestep))
  = multiply (pred_a (_state self))
      (fst (gen_epsilon_matrix (_rand self) (shape (pred_a (_state self))))).
Proof. reflexivity. Qed.

(** The state holds matrices of the documented shapes: [(n, d)] for the
    particles and [(m, d)] for the predators. *)
Definition state_shapes (n d m : nat) (S : State) : Prop :=
  shape (p S) = [n; d] /\ shape (v S) = [n; d] /\ shape (a S) = [n; d]
  /\ shape (pred_p S) = [m; d] /\ shape (pred_v S) = [m; d]
  /\ shape (pred_a S) = [m; d].

(** The engines on which the steps cannot fail: the six arrays have the
    documented shapes, there is at least one particle, and the weight
    matrix has one row per particle and three columns. *)
Definition well_shaped (n d m : nat) (self : Engine) : Prop :=
  (0 < n)%nat
  /\ state_shapes n d m (_state self)
  /\ shape (uw (_cfg self)) = [n; 3%nat].

(** ** The run loop *)

Lemma run_body_self (timestep : Q) (skip : Z) (flag : bool) (l : RunLoop) (it : Z) :
  loop_self (run_body timestep skip flag l it) = step timestep (loop_self l).
Proof.
  unfold run_body, step.
  rewrite (surjective_pairing (_step_particles (loop_self l) timestep flag)).
  rewrite step_particles_flag.
  now destruct (skip - 1 <? it)%Z.
Qed.

Lemma run_body_states (timestep : Q) (skip : Z) (flag : bool) (l : RunLoop) (it : Z) :
  loop_states (run_body timestep skip flag l it)
  = if (skip - 1 <? it)%Z
    then loop_states l ++ [_state (step timestep (loop_self l))]
    else loop_states l.
Proof.
  unfold run_body, step.
  rewrite (surjective_pairing (_step_particles (loop_self l) timestep flag)).
  rewrite step_particles_flag.
  now destruct (skip - 1 <? it)%Z.
Qed.

Lemma run_body_urgency_vectors (timestep : Q) (skip : Z) (l : RunLoop) (it : Z) :
  loop_urgency_vectors (run_body timestep skip true l it)
  = if (skip - 1 <? it)%Z
    then loop_urgency_vectors l
         ++ [let us := fst (step_urgencies (loop_self l)) in
             stack3 (fst (fst us)) (snd (fst us)) (snd us)]
    else loop_urgency_vectors l.
Proof.
  unfold run_body.
  rewrite (surjective_pairing (_step_particles (loop_self l) timestep true)).
  rewrite step_particles_fst.
  now destruct (skip - 1 <? it)%Z.
Qed.

Lemma run_body_skipped (timestep : Q) (skip : Z) (flag : bool) (l : RunLoop) (it : Z) :
  (it < skip)%Z ->
  loop_states (run_body timestep skip flag l it) = loop_states l
  /\ loop_urgency_vectors (run_body timestep skip flag l it)
     = loop_urgency_vectors l.
Proof.
  intros Hit. unfold run_body.
  rewrite (surjective_pairing (_step_particles (loop_self l) timestep flag)).
  assert (E : (skip - 1 <? it)%Z = false) by (apply Z.ltb_ge; lia).
  rewrite E. split; reflexivity.
Qed.

Lemma range_length (lo hi : Z) : List.length (range lo hi) = Z.to_nat (hi - lo).
Proof. unfold range. now rewrite length_map, length_seq. Qed.

Lemma range_snoc (n : nat) :
  range 1 (Z.of_nat (S n) + 1) = range 1 (Z.of_nat n + 1) ++ [Z.of_nat (S n)].
Proof.
  unfold range.
  replace (Z.to_nat (Z.of_nat (S n) + 1 - 1)) with (S n) by lia.
  replace (Z.to_nat (Z.of_nat n + 1 - 1)) with n by lia.
  rewrite seq_S, map_app. cbn [map Nat.add]. do 2 f_equal. lia.
Qed.

Lemma range_In (lo hi it : Z) : In it (range lo hi) -> (lo <= it < hi)%Z.
Proof.
  unfold range. intros H. apply in_map_iff in H.
  destruct H as (k & <- & Hk). apply in_seq in Hk. lia.
Qed.

(** The iterations [1 .. n] that are recorded when [skip] states are
    skipped: those with [iteration > skip - 1]. *)
Definition recorded (skip : Z) (n : nat) : list nat :=
  filter (fun k => (skip - 1 <? Z.of_nat k)%Z) (seq 1 n).

Lemma recorded_S (skip : Z) (n : nat) :
  recorded skip (S n)
  = recorded skip n ++ (if (skip - 1 <? Z.of_nat (S n))%Z then [S n] else []).
Proof.
  unfold recorded. rewrite seq_S, filter_app. cbn [filter Nat.add].
  reflexivity.
Qed.

Lemma recorded_seq (skip : Z) (n : nat) :
  recorded skip n
  = seq (S (Z.to_nat (skip - 1))) (n - Z.to_nat (skip - 1)).
Proof.
  induction n as [|n IH].
  - reflexivity.
  - rewrite recorded_S, IH.
    destruct (skip - 1 <? Z.of_nat (S n))%Z eqn:E.
    + apply Z.ltb_lt in E.
      replace (S n - Z.to_nat (skip - 1))%nat
        with (S (n - Z.to_nat (skip - 1)))%nat by lia.
      rewrite seq_S. do 2 f_equal. lia.
    + apply Z.ltb_ge in E.
      replace (S n - Z.to_nat (skip - 1))%nat with 0%nat by lia.
      replace (n - Z.to_nat (skip - 1))%nat with 0%nat by lia.
      reflexivity.
Qed.

(** After [n] passes of the loop: the engine has been stepped [n] times and
    the state list has grown by the states after the recorded iterations. *)
Lemma run_loop_states (timestep : Q) (skip : Z) (flag : bool) (start : RunLoop) :
  forall n,
    let l := fold_left (run_body timestep skip flag)
               (range 1 (Z.of_nat n + 1)) start in
    loop_self l = Nat.iter n (step timestep) (loop_self start)
    /\ loop_states l
       = loop_states start
         ++ map (fun k => _state (Nat.iter k (step timestep) (loop_self start)))
              (recorded skip n).
Proof.
  induction n as [|n [IHs IHl]]; cbn zeta.
  - cbn. now rewrite app_nil_r.
  - rewrite range_snoc, fold_left_app. cbn [fold_left].
    rewrite run_body_self, run_body_states, IHs, IHl, recorded_S.
    split; [reflexivity|].
    destruct (skip - 1 <? Z.of_nat (S n))%Z.
    + now rewrite map_app, app_assoc.
    + now rewrite app_nil_r.
Qed.

Lemma run_loop_self (timestep : Q) (skip : Z) (flag : bool) (its : list Z) :
  forall start,
    loop_self (fold_left (run_body timestep skip flag) its start)
    = Nat.iter (List.length its) (step timestep) (loop_self start).
Proof.
  induction its as [|it its IH]; intros start; [reflexivity|].
  cbn [fold_left List.length]. rewrite IH, run_body_self.
  symmetry. apply Nat.iter_succ_r.
Qed.

Lemma run_loop_skipped (timestep : Q) (skip : Z) (flag : bool) (its : list Z) :
  (forall it, In it its -> (it < skip)%Z) ->
  forall start,
    let l := fold_left (run_body timestep skip flag) its start in
    loop_states l = loop_states start
    /\ loop_urgency_vectors l = loop_urgency_vectors start.
Proof.
  induction its as [|it its IH]; intros Hits start; cbn zeta; [split; reflexivity|].
  cbn [fold_left].
  destruct (IH (fun x Hx => Hits x (or_intror Hx))
              (run_body timestep skip flag start it)) as [Es Eu].
  destruct (run_body_skipped timestep flag start (Hits it (or_introl eq_refl)))
    as [Es' Eu'].
  split; congruence.
Qed.

(** The recorded states of a run of [n] iterations, and the engine it
    leaves behind. *)
Lemma run_states (self : Engine) (timestep : Q) (n : nat) (skip : Z) (flag : bool) :
  states (fst (run self timestep (Z.of_nat n) skip flag))
  = (if (0 <? skip)%Z then [] else [_state self])
    ++ map (fun k => _state (Nat.iter k (step timestep) self)) (recorded skip n)
  /\ snd (run self timestep (Z.of_nat n) skip flag)
     = Nat.iter n (step timestep) self.
Proof.
  unfold run. cbn [fst snd states].
  destruct (0 <? skip)%Z;
    match goal with
    | |- context [fold_left _ _ ?s] =>
        destruct (run_loop_states timestep skip flag s n) as [Es El]
    end; cbn zeta in Es, El; rewrite Es, El; split; reflexivity.
Qed.

(** C3.  On a well-shaped engine, for
    [0 <= skip_initial_states <= iterations], the returned [states] list
    has [iterations + 1] entries when nothing is skipped and
    [iterations - skip_initial_states + 1] entries otherwise; and
    [run(iterations=5, skip_initial_states=5)] returns exactly one state, the
    one reached after the fifth step. *)
Theorem run_states_length (self : Engine) (timestep : Q)
    (iterations skip_initial_states : Z) (return_urgency_vectors : bool)
    (n d m : nat) :
  well_shaped n d m self ->
  (0 <= skip_initial_states <= iterations)%Z ->
  Z.of_nat (List.length (states (fst
     (run self timestep iterations skip_initial_states return_urgency_vectors))))
  = (if (skip_initial_states =? 0)%Z then iterations + 1
     else iterations - skip_initial_states + 1)%Z
  /\ states (fst (run self timestep 5 5 return_urgency_vectors))
     = [_state (Nat.iter 5 (step timestep) self)].
Proof.
  intros _ Hskip. split.
  - rewrite <- (Z2Nat.id iterations) at 1 by lia.
    destruct (run_states self timestep (Z.to_nat iterations)
                skip_initial_states return_urgency_vectors) as [E _].
    rewrite E, length_app, length_map, recorded_seq, length_seq.
    destruct (skip_initial_states =? 0)%Z eqn:E0.
    + apply Z.eqb_eq in E0. subst skip_initial_states. cbn. lia.
    + apply Z.eqb_neq in E0.
      assert (E1 : (0 <? skip_initial_states)%Z = true) by (apply Z.ltb_lt; lia).
      rewrite E1. cbn [List.length]. lia.
  - destruct (run_states self timestep 5 5 return_urgency_vectors) as [E _].
    exact E.
Qed.

(** C10.  On a well-shaped engine, when [skip_initial_states] is positive
    and exceeds [iterations], [run] makes no check of its own and still
    returns: the engine has been stepped [iterations] times (not
    at all for a negative count), and the result holds an empty state list
    and, if asked for, an empty urgency list. *)
Theorem run_skip_beyond_iterations (self : Engine) (timestep : Q)
    (iterations skip_initial_states : Z) (return_urgency_vectors : bool)
    (n d m : nat) :
  well_shaped n d m self ->
  (0 < skip_initial_states)%Z -> (iterations < skip_initial_states)%Z ->
  let r := run self timestep iterations skip_initial_states
             return_urgency_vectors in
  states (fst r) = []
  /\ urgencies (fst r) = (if return_urgency_vectors then Some [] else None)
  /\ snd r = Nat.iter (Z.to_nat iterations) (step timestep) self.
Proof.
  intros _ Hpos Hskip. cbn zeta. unfold run. cbn [fst snd states urgencies].
  assert (E1 : (0 <? skip_initial_states)%Z = true) by (apply Z.ltb_lt; lia).
  rewrite E1.
  destruct (@run_loop_skipped timestep skip_initial_states
              return_urgency_vectors (range 1 (iterations + 1)))
    with (start := mk_RunLoop self [] []) as [Es Eu].
  { intros it Hit. apply range_In in Hit. lia. }
  cbn zeta in Es, Eu. rewrite Es, Eu, run_loop_self, range_length.
  cbn [loop_states loop_urgency_vectors loop_self].
  repeat split. f_equal. lia.
Qed.

(** ** Element-wise reasoning on matrices *)

Lemma get2_map2d A B `{Default A} `{Default B} (f : A -> B) (x : ndarray A) (i k : nat) :
  (i < axis x 0)%nat -> (k < axis x 1)%nat ->
  get2 (map2d f x) i k = f (get2 x i k).
Proof. intros Hi Hk. unfold map2d. now rewrite get2_tabulate2. Qed.

Lemma get2_zip2d A B C `{Default A} `{Default B} `{Default C}
    (f : A -> B -> C) (x : ndarray A) (y : ndarray B) (i k : nat) :
  (i < axis x 0)%nat -> (k < axis x 1)%nat ->
  get2 (zip2d f x y) i k = f (get2 x i k) (get2 y i k).
Proof. intros Hi Hk. unfold zip2d. now rewrite get2_tabulate2. Qed.

Lemma Forall_tabulate2 A (P : A -> Prop) (n d : nat) (f : nat -> nat -> A) :
  (forall i k, (i < n)%nat -> (k < d)%nat -> P (f i k)) ->
  Forall P (data (tabulate2 n d f)).
Proof.
  intros Hf. apply Forall_forall. intros x Hx. cbn [tabulate2 data] in Hx.
  apply in_flat_map in Hx. destruct Hx as (i & Hi & Hx).
  apply in_map_iff in Hx. destruct Hx as (k & <- & Hk).
  apply in_seq in Hi. apply in_seq in Hk. apply Hf; lia.
Qed.

Lemma Forall2_tabulate2 A B (R : A -> B -> Prop) (n d : nat)
    (f : nat -> nat -> A) (g : nat -> nat -> B) :
  (forall i k, (i < n)%nat -> (k < d)%nat -> R (f i k) (g i k)) ->
  Forall2 R (data (tabulate2 n d f)) (data (tabulate2 n d g)).
Proof.
  intros Hfg. cbn [tabulate2 data].
  assert (Hrows : forall s len, (s + len <= n)%nat ->
            Forall2 R (flat_map (fun i => map (f i) (seq 0 d)) (seq s len))
                      (flat_map (fun i => map (g i) (seq 0 d)) (seq s len))).
  { intros s len. revert s. induction len as [|len IH]; intros s Hs.
    - constructor.
    - cbn [seq flat_map]. apply Forall2_app; [|apply IH; lia].
      assert (Hcols : forall t m, (t + m <= d)%nat ->
                Forall2 R (map (f s) (seq t m)) (map (g s) (seq t m))).
      { intros t m. revert t. induction m as [|m IHm]; intros t Ht.
        - constructor.
        - cbn [seq map]. constructor; [apply Hfg; lia | apply IHm; lia]. }
      apply Hcols. lia. }
  apply Hrows. lia.
Qed.

(** The clipper bounds every element of a matrix. *)
Lemma inplace_clip_by_abs_bounded (x : ndarray Q) (bound : Q) :
  (0 <= bound)%Q ->
  Forall (fun e => (Qabs e <= bound)%Q) (data (inplace_clip_by_abs x bound)).
Proof.
  intros Hb. unfold inplace_clip_by_abs, map2d. apply Forall_tabulate2.
  intros i k _ _. now apply clip_by_abs_bounded.
Qed.

(** ** Bounds on acceleration and velocity *)

(** C7.  After a particle step (decay, integration of the acceleration,
    clipping), every component of the velocity matrix is at most [v_max] in
    absolute value, whatever the state before and the noise; [v_max] is a
    magnitude, so it is not negative. *)
Theorem step_particles_velocity_bounded (self : Engine) (timestep : Q)
    (return_urgency_vectors : bool) :
  (0 <= v_max (_cfg self))%Q ->
  Forall (fun e => (Qabs e <= v_max (_cfg self))%Q)
    (data (v (_state (snd
       (_step_particles self timestep return_urgency_vectors))))).
Proof.
  intros Hmax. rewrite step_particles_v. cbn zeta.
  now apply inplace_clip_by_abs_bounded.
Qed.

(** C6.  In a particle step the acceleration is clipped before the noise is
    applied: every component of the clipped acceleration is at most [a_max]
    in absolute value; the stored acceleration is the clipped one times the
    noise matrix drawn afterwards; hence a stored component exceeds [a_max]
    by no more than the factor drawn for it. *)
Theorem step_particles_acceleration_clipped_then_noised (self : Engine)
    (timestep : Q) (return_urgency_vectors : bool) :
  (0 <= a_max (_cfg self))%Q ->
  let us := fst (step_urgencies self) in
  let c := clipped_acceleration (_cfg self)
             (fst (fst us)) (snd (fst us)) (snd us) in
  let eps := acceleration_noise self in
  let a' := a (_state (snd
              (_step_particles self timestep return_urgency_vectors))) in
  Forall (fun e => (Qabs e <= a_max (_cfg self))%Q) (data c)
  /\ a' = multiply c eps
  /\ forall i k,
       (i < axis (p (_state self)) 0)%nat ->
       (k < axis (p (_state self)) 1)%nat ->
       (Qabs (get2 c i k) <= a_max (_cfg self))%Q
       /\ (get2 a' i k == get2 c i k * get2 eps i k)%Q
       /\ (Qabs (get2 a' i k) <= a_max (_cfg self) * Qabs (get2 eps i k))%Q.
Proof.
  intros Hmax us c eps a'.
  split; [now apply inplace_clip_by_abs_bounded|].
  split; [reflexivity|].
  intros i k Hi Hk.
  assert (Hc : (Qabs (get2 c i k) <= a_max (_cfg self))%Q).
  { subst c. unfold clipped_acceleration, inplace_clip_by_abs.
    rewrite get2_map2d by first [exact Hi | exact Hk].
    now apply clip_by_abs_bounded. }
  assert (Ha : get2 a' i k = (get2 c i k * get2 eps i k)%Q).
  { subst a'. rewrite step_particles_a. cbn zeta.
    fold us. fold c. fold eps. unfold multiply.
    now rewrite get2_zip2d by first [exact Hi | exact Hk]. }
  split; [exact Hc|]. split; [now rewrite Ha|].
  rewrite Ha, Qabs_Qmult.
  apply Qmult_le_compat_r; [exact Hc | apply Qabs_nonneg].
Qed.

(** ** The range mask and the weights *)

Lemma get2_in_range_mask (distances : ndarray Q) (bound : Q) (i j : nat) :
  (i < axis distances 0)%nat -> (j < axis distances 1)%nat ->
  get2 (in_range_mask distances bound) i j
  = Qlt_bool 0 (get2 distances i j) && Qle_bool (get2 distances i j) bound.
Proof.
  intros Hi Hj. unfold in_range_mask, logical_and, greater, less_equal.
  rewrite get2_zip2d by first [exact Hi | exact Hj].
  now rewrite !get2_map2d by first [exact Hi | exact Hj].
Qed.

Lemma in_range_mask_true (distances : ndarray Q) (bound : Q) (i j : nat) :
  (i < axis distances 0)%nat -> (j < axis distances 1)%nat ->
  get2 (in_range_mask distances bound) i j = true
  <-> (0 < get2 distances i j /\ get2 distances i j <= bound)%Q.
Proof.
  intros Hi Hj. rewrite get2_in_range_mask by assumption.
  now rewrite andb_true_iff, Qlt_bool_iff, Qle_bool_iff.
Qed.

Lemma in_range_mask_zero (distances : ndarray Q) (bound : Q) (i j : nat) :
  (i < axis distances 0)%nat -> (j < axis distances 1)%nat ->
  (get2 distances i j == 0)%Q ->
  get2 (in_range_mask distances bound) i j = false.
Proof.
  intros Hi Hj Hz.
  destruct (get2 (in_range_mask distances bound) i j) eqn:E; [|reflexivity].
  apply in_range_mask_true in E; [|assumption..]. lra.
Qed.

Lemma get2_u1_weights (cfg : Config) (distances : ndarray Q) (i j : nat) :
  (i < axis distances 0)%nat -> (j < axis distances 1)%nat ->
  get2 (u1_weights cfg distances) i j
  = if get2 (in_range_mask distances (d_max cfg)) i j
    then (1 / inject_Z (Z.of_nat
            (get2 (count_nonzero_rows (in_range_mask distances (d_max cfg))) i 0)))%Q
    else 0%Q.
Proof.
  intros Hi Hj. unfold u1_weights, divide_where.
  rewrite get2_tabulate2 by first [exact Hi | exact Hj].
  destruct (get2 (in_range_mask distances (d_max cfg)) i j); [reflexivity|].
  apply get2_zeros.
Qed.

Lemma get2_u2_weights (cfg : Config) (distances : ndarray Q) (i j : nat) :
  (i < axis distances 0)%nat -> (j < axis distances 1)%nat ->
  get2 (u2_weights cfg distances) i j
  = if get2 (in_range_mask distances (u2_dopt cfg)) i j
    then ((u2_dopt cfg - get2 distances i j)
          / (u2_dopt cfg * get2 distances i j))%Q
    else 0%Q.
Proof.
  intros Hi Hj. unfold u2_weights, divide_where.
  rewrite get2_tabulate2 by first [exact Hi | exact Hj].
  destruct (get2 (in_range_mask distances (u2_dopt cfg)) i j); [reflexivity|].
  apply get2_zeros.
Qed.

Lemma get2_u3_weights (cfg : Config) (state : State) (i j : nat) :
  (i < axis (p state) 0)%nat -> (j < axis (pred_p state) 0)%nat ->
  let distances := distances_from_predators state in
  get2 (u3_weights cfg state) i j
  = if get2 (in_range_mask distances (u3_dmax cfg)) i j
    then ((u3_dmax cfg - get2 distances i j)
          / (u3_dmax cfg * get2 distances i j))%Q
    else 0%Q.
Proof.
  intros Hi Hj. cbn zeta. unfold u3_weights, divide_where.
  rewrite get2_tabulate2 by first [exact Hi | exact Hj].
  destruct (get2 (in_range_mask (distances_from_predators state) (u3_dmax cfg)) i j);
    [reflexivity|].
  apply get2_zeros.
Qed.

(** The diagonal of the pairwise distance matrix is zero by construction. *)
Lemma squareform_pdist_diagonal (x : ndarray Q) (i : nat) :
  (i < axis x 0)%nat -> get2 (squareform_pdist x) i i = 0%Q.
Proof.
  intros Hi. unfold squareform_pdist. rewrite get2_tabulate2 by exact Hi.
  now rewrite Nat.eqb_refl.
Qed.

(** A row of the mask with a true entry has a positive count. *)
Lemma count_nonzero_rows_positive (m : ndarray bool) (i j : nat) :
  (i < axis m 0)%nat -> (j < axis m 1)%nat -> get2 m i j = true ->
  (0 < get2 (count_nonzero_rows m) i 0)%nat.
Proof.
  intros Hi Hj Hm. unfold count_nonzero_rows.
  rewrite get2_tabulate2 by (exact Hi || lia).
  assert (Hin : In j (filter (fun j' => get2 m i j') (seq 0 (axis m 1)))).
  { apply filter_In. split; [apply in_seq; lia | exact Hm]. }
  destruct (filter (fun j' => get2 m i j') (seq 0 (axis m 1)));
    [destruct Hin | cbn; lia].
Qed.

(** ** Pairs at distance zero *)

(** C8.  In the three urgency computations a pair at distance exactly zero
    fails the [distance > 0] half of the range mask, so its weight is exactly
    zero; this covers the self-terms, since the diagonal of the pairwise
    distance matrix is zero.  And wherever the mask holds, which is where the
    weight division is carried out, the divisor is positive: the division
    never meets a zero distance. *)
Theorem zero_distance_pairs_excluded (cfg : Config) (state : State) :
  let n := axis (p state) 0 in
  let m := axis (pred_p state) 0 in
  let D := squareform_pdist (p state) in
  let DP := distances_from_predators state in
  (forall i, (i < n)%nat -> get2 D i i = 0%Q)
  /\ (forall i j, (i < n)%nat -> (j < n)%nat -> (get2 D i j == 0)%Q ->
        get2 (in_range_mask D (d_max cfg)) i j = false
        /\ get2 (u1_weights cfg D) i j = 0%Q
        /\ get2 (in_range_mask D (u2_dopt cfg)) i j = false
        /\ get2 (u2_weights cfg D) i j = 0%Q)
  /\ (forall i j, (i < n)%nat -> (j < m)%nat -> (get2 DP i j == 0)%Q ->
        get2 (in_range_mask DP (u3_dmax cfg)) i j = false
        /\ get2 (u3_weights cfg state) i j = 0%Q)
  /\ (forall i j, (i < n)%nat -> (j < n)%nat ->
        get2 (in_range_mask D (d_max cfg)) i j = true ->
        (0 < inject_Z (Z.of_nat
               (get2 (count_nonzero_rows (in_range_mask D (d_max cfg))) i 0)))%Q)
  /\ (forall i j, (i < n)%nat -> (j < n)%nat ->
        get2 (in_range_mask D (u2_dopt cfg)) i j = true ->
        (0 < u2_dopt cfg * get2 D i j)%Q)
  /\ (forall i j, (i < n)%nat -> (j < m)%nat ->
        get2 (in_range_mask DP (u3_dmax cfg)) i j = true ->
        (0 < u3_dmax cfg * get2 DP i j)%Q).
Proof.
  intros n m D DP.
  split; [intros i Hi; now apply squareform_pdist_diagonal|].
  split.
  { intros i j Hi Hj Hz.
    assert (E1 := @in_range_mask_zero D (d_max cfg) i j Hi Hj Hz).
    assert (E2 := @in_range_mask_zero D (u2_dopt cfg) i j Hi Hj Hz).
    rewrite (@get2_u1_weights cfg D i j Hi Hj), (@get2_u2_weights cfg D i j Hi Hj).
    rewrite E1, E2. auto. }
  split.
  { intros i j Hi Hj Hz.
    assert (E := @in_range_mask_zero DP (u3_dmax cfg) i j Hi Hj Hz).
    rewrite (@get2_u3_weights cfg state i j Hi Hj). fold DP. rewrite E. auto. }
  split.
  { intros i j Hi Hj Hm.
    assert (Hc := @count_nonzero_rows_positive
                    (in_range_mask D (d_max cfg)) i j Hi Hj Hm).
    change 0%Q with (inject_Z 0). rewrite <- Zlt_Qlt. lia. }
  split.
  - intros i j Hi Hj Hm.
    apply (@in_range_mask_true D (u2_dopt cfg) i j Hi Hj) in Hm. nra.
  - intros i j Hi Hj Hm.
    apply (@in_range_mask_true DP (u3_dmax cfg) i j Hi Hj) in Hm. nra.
Qed.

(** ** The urgencies, element by element *)

Lemma get2_calculate_urgency1 (self : Engine) (distances : ndarray Q) (i k : nat) :
  let P := p (_state self) in
  let cfg := _cfg self in
  let eps := fst (gen_epsilon_matrix (_rand self) (shape P)) in
  (i < axis distances 0)%nat -> (k < axis P 1)%nat ->
  get2 (fst (_calculate_urgency1 self distances)) i k
  = ((Qsum_upto (axis distances 1)
        (fun j => get2 (u1_weights cfg distances) i j * get2 P j k)
      - get2 P i k) * get2 eps i k * u1_p cfg * get2 (uw cfg) i 0)%Q.
Proof.
  intros P cfg eps Hi Hk.
  change (fst (_calculate_urgency1 self distances))
    with (multiply_column
            (scale (multiply (subtract (matmul (u1_weights cfg distances) P) P) eps)
               (u1_p cfg)) (uw cfg) 0).
  unfold multiply_column. rewrite get2_tabulate2 by first [exact Hi | exact Hk].
  unfold scale. rewrite get2_map2d by first [exact Hi | exact Hk].
  unfold multiply. rewrite get2_zip2d by first [exact Hi | exact Hk].
  unfold subtract. rewrite get2_zip2d by first [exact Hi | exact Hk].
  unfold matmul. rewrite get2_tabulate2 by first [exact Hi | exact Hk].
  reflexivity.
Qed.

Lemma get2_calculate_urgency2 (self : Engine) (distances : ndarray Q) (i k : nat) :
  let P := p (_state self) in
  let cfg := _cfg self in
  let eps := fst (gen_epsilon_matrix (_rand self) (shape P)) in
  (i < axis P 0)%nat -> (k < axis P 1)%nat ->
  get2 (fst (_calculate_urgency2 self distances)) i k
  = (Qsum_upto (axis P 0)
       (fun j => get2 (u2_weights cfg distances) i j
                 * (get2 P i k - get2 P j k))
     * get2 eps i k * u2_p cfg * get2 (uw cfg) i 1)%Q.
Proof.
  intros P cfg eps Hi Hk.
  change (fst (_calculate_urgency2 self distances))
    with (multiply_column
            (scale
               (multiply
                  (matmul_rows (axis P 0) (axis P 0) (axis P 1)
                     (u2_weights cfg distances)
                     (fun i j k => (get2 P i k - get2 P j k)%Q))
                  eps)
               (u2_p cfg)) (uw cfg) 1).
  unfold multiply_column. rewrite get2_tabulate2 by first [exact Hi | exact Hk].
  unfold scale. rewrite get2_map2d by first [exact Hi | exact Hk].
  unfold multiply. rewrite get2_zip2d by first [exact Hi | exact Hk].
  unfold matmul_rows. rewrite get2_tabulate2 by first [exact Hi | exact Hk].
  reflexivity.
Qed.

Lemma get2_calculate_urgency3 (self : Engine) (distances : ndarray Q) (i k : nat) :
  let P := p (_state self) in
  let PP := pred_p (_state self) in
  let cfg := _cfg self in
  let eps := fst (gen_epsilon_matrix (_rand self) (shape P)) in
  (i < axis P 0)%nat -> (k < axis P 1)%nat ->
  get2 (fst (_calculate_urgency3 self distances)) i k
  = (Qsum_upto (axis PP 0)
       (fun j => get2 (u3_weights cfg (_state self)) i j
                 * (get2 P i k - get2 PP j k))
     * get2 eps i k * u3_p cfg * get2 (uw cfg) i 2)%Q.
Proof.
  intros P PP cfg eps Hi Hk.
  change (fst (_calculate_urgency3 self distances))
    with (multiply_column
            (scale
               (multiply
                  (matmul_rows (axis P 0) (axis PP 0) (axis P 1)
                     (u3_weights cfg (_state self))
                     (fun i j k => (get2 P i k - get2 PP j k)%Q))
                  eps)
               (u3_p cfg)) (uw cfg) 2).
  unfold multiply_column. rewrite get2_tabulate2 by first [exact Hi | exact Hk].
  unfold scale. rewrite get2_map2d by first [exact Hi | exact Hk].
  unfold multiply. rewrite get2_zip2d by first [exact Hi | exact Hk].
  unfold matmul_rows. rewrite get2_tabulate2 by first [exact Hi | exact Hk].
  reflexivity.
Qed.

(** The three urgencies of a step are the three methods applied to the
    distance matrix of the current positions; only the noise source moves
    between the calls. *)
Lemma step_urgencies_fst (self : Engine) :
  let D := squareform_pdist (p (_state self)) in
  let self1 := snd (_calculate_urgency1 self D) in
  let self2 := snd (_calculate_urgency2 self1 D) in
  fst (step_urgencies self)
  = (fst (_calculate_urgency1 self D),
     fst (_calculate_urgency2 self1 D),
     fst (_calculate_urgency3 self2 D))
  /\ _state self1 = _state self /\ _cfg self1 = _cfg self
  /\ _state self2 = _state self /\ _cfg self2 = _cfg self.
Proof. repeat split. Qed.

(** A particle is isolated for a range bound when no other particle lies
    at a distance in [(0, bound]] of it. *)
Definition isolated (distances : ndarray Q) (bound : Q) (i : nat) : Prop :=
  forall j, (j < axis distances 1)%nat -> j <> i ->
    ~ (0 < get2 distances i j /\ get2 distances i j <= bound)%Q.

(** No predator lies at a distance in [(0, bound]] of the particle. *)
Definition unthreatened (distances : ndarray Q) (bound : Q) (i : nat) : Prop :=
  forall j, (j < axis distances 1)%nat ->
    ~ (0 < get2 distances i j /\ get2 distances i j <= bound)%Q.

Lemma isolated_mask_row (x : ndarray Q) (bound : Q) (i j : nat) :
  (i < axis x 0)%nat -> (j < axis x 0)%nat ->
  isolated (squareform_pdist x) bound i ->
  get2 (in_range_mask (squareform_pdist x) bound) i j = false.
Proof.
  intros Hi Hj Hiso.
  destruct (Nat.eq_dec j i) as [->|Hne].
  - apply in_range_mask_zero; try exact Hi.
    now rewrite squareform_pdist_diagonal.
  - destruct (get2 (in_range_mask (squareform_pdist x) bound) i j) eqn:E;
      [|reflexivity].
    apply in_range_mask_true in E; try assumption.
    exfalso. exact (Hiso j Hj Hne E).
Qed.

Lemma unthreatened_mask_row (distances : ndarray Q) (bound : Q) (i j : nat) :
  (i < axis distances 0)%nat -> (j < axis distances 1)%nat ->
  unthreatened distances bound i ->
  get2 (in_range_mask distances bound) i j = false.
Proof.
  intros Hi Hj Hfree.
  destruct (get2 (in_range_mask distances bound) i j) eqn:E; [|reflexivity].
  apply in_range_mask_true in E; try assumption.
  exfalso. exact (Hfree j Hj E).
Qed.

(** ** Particles with nothing in range *)

(** C9.  In a step, a particle with no other particle at a distance in
    [(0, u2_dopt]] receives the zero vector as its urgency 2, and a particle
    with no predator at a distance in [(0, u3_dmax]] receives the zero vector
    as its urgency 3. *)
Theorem isolated_urgency2_urgency3_zero (self : Engine) (i : nat) :
  let P := p (_state self) in
  let cfg := _cfg self in
  let D := squareform_pdist P in
  let DP := distances_from_predators (_state self) in
  let u2 := snd (fst (fst (step_urgencies self))) in
  let u3 := snd (fst (step_urgencies self)) in
  (i < axis P 0)%nat ->
  (isolated D (u2_dopt cfg) i -> Forall (fun e => (e == 0)%Q) (row u2 i))
  /\ (unthreatened DP (u3_dmax cfg) i -> Forall (fun e => (e == 0)%Q) (row u3 i)).
Proof.
  intros P cfg D DP u2 u3 Hi.
  set (self1 := snd (_calculate_urgency1 self D)).
  set (self2 := snd (_calculate_urgency2 self1 D)).
  split.
  - intros Hiso. apply Forall_forall. intros e He.
    apply in_map_iff in He. destruct He as (k & <- & Hk). apply in_seq in Hk.
    change u2 with (fst (_calculate_urgency2 self1 D)).
    rewrite get2_calculate_urgency2 by first [exact Hi | apply Hk].
    rewrite Qsum_upto_zero; [ring|].
    intros j Hj. cbn beta.
    rewrite get2_u2_weights by first [exact Hi | exact Hj].
    change (_cfg self1) with cfg.
    rewrite (@isolated_mask_row P (u2_dopt cfg) i j Hi Hj Hiso
             : get2 (in_range_mask D (u2_dopt cfg)) i j = false). ring.
  - intros Hfree. apply Forall_forall. intros e He.
    apply in_map_iff in He. destruct He as (k & <- & Hk). apply in_seq in Hk.
    change u3 with (fst (_calculate_urgency3 self2 D)).
    rewrite get2_calculate_urgency3 by first [exact Hi | apply Hk].
    rewrite Qsum_upto_zero; [ring|].
    intros j Hj. cbn beta.
    rewrite (@get2_u3_weights (_cfg self2) (_state self2) i j Hi Hj).
    change (_cfg self2) with cfg. change (_state self2) with (_state self).
    fold DP.
    rewrite (@unthreatened_mask_row DP (u3_dmax cfg) i j Hi Hj Hfree). ring.
Qed.

(** What urgency 1 is for a particle with no other particle at a distance in
    [(0, d_max]]: its weight row is zero, so the perceived barycentre is the
    origin, and the particle is pulled by [origin - position]. *)
Lemma isolated_urgency1_value (self : Engine) (i k : nat) :
  let P := p (_state self) in
  let cfg := _cfg self in
  let D := squareform_pdist P in
  let eps := fst (gen_epsilon_matrix (_rand self) (shape P)) in
  let u1 := fst (fst (fst (step_urgencies self))) in
  (i < axis P 0)%nat -> (k < axis P 1)%nat ->
  isolated D (d_max cfg) i ->
  (get2 u1 i k
   == (0 - get2 P i k) * get2 eps i k * u1_p cfg * get2 (uw cfg) i 0)%Q.
Proof.
  intros P cfg D eps u1 Hi Hk Hiso.
  change u1 with (fst (_calculate_urgency1 self D)).
  rewrite get2_calculate_urgency1 by first [exact Hi | exact Hk].
  fold P. fold cfg. fold eps.
  rewrite Qsum_upto_zero; [reflexivity|].
  intros j Hj. cbn beta.
  rewrite get2_u1_weights by first [exact Hi | exact Hj].
  rewrite (@isolated_mask_row P (d_max cfg) i j Hi Hj Hiso
           : get2 (in_range_mask D (d_max cfg)) i j = false). ring.
Qed.

(** ** Stacked urgency vectors *)

(** A well-formed [n] by [d] matrix: the buffer holds [n * d] elements. *)
Definition matrix A (n d : nat) (x : ndarray A) : Prop :=
  shape x = [n; d] /\ List.length (data x) = (n * d)%nat.

Lemma matrix_tabulate2 A (n d : nat) (f : nat -> nat -> A) :
  matrix n d (tabulate2 n d f).
Proof. split; [reflexivity | apply length_data_tabulate2]. Qed.

Lemma size_matrix (n d : nat) : size [n; d] = (n * d)%nat.
Proof. cbn. lia. Qed.

(** Indexing the stack gives back the stacked arrays. *)
Lemma slice_stack3 A (n d : nat) (x0 x1 x2 : ndarray A) :
  matrix n d x0 -> matrix n d x1 -> matrix n d x2 ->
  slice (stack3 x0 x1 x2) 0 = x0
  /\ slice (stack3 x0 x1 x2) 1 = x1
  /\ slice (stack3 x0 x1 x2) 2 = x2.
Proof.
  destruct x0 as [s0 d0], x1 as [s1 d1], x2 as [s2 d2].
  unfold matrix, slice, stack3. cbn [shape data tl].
  intros [-> L0] [-> L1] [-> L2]. rewrite size_matrix.
  repeat split; f_equal.
  - cbn [Nat.mul skipn]. rewrite <- L0. now rewrite firstn_app, firstn_all,
      Nat.sub_diag, firstn_O, app_nil_r.
  - rewrite Nat.mul_1_l, <- L0, skipn_app, skipn_all, Nat.sub_diag.
    cbn [skipn app]. rewrite L0, <- L1.
    now rewrite firstn_app, firstn_all, Nat.sub_diag, firstn_O, app_nil_r.
  - replace (2 * (n * d))%nat with (List.length d0 + List.length d1)%nat by lia.
    rewrite <- length_app, app_assoc, skipn_app, skipn_all, Nat.sub_diag.
    cbn [skipn app]. rewrite <- L2. apply firstn_all.
Qed.

(** The three urgencies of a step are well-formed matrices of the shape of
    the positions. *)
Lemma step_urgencies_matrix (self : Engine) :
  let n := axis (p (_state self)) 0 in
  let d := axis (p (_state self)) 1 in
  let us := fst (step_urgencies self) in
  matrix n d (fst (fst us)) /\ matrix n d (snd (fst us)) /\ matrix n d (snd us).
Proof. repeat split; apply length_data_tabulate2. Qed.

Lemma array_eq_tabulate2 (n d : nat) (f g : nat -> nat -> Q) :
  (forall i k, (i < n)%nat -> (k < d)%nat -> (f i k == g i k)%Q) ->
  array_eq (tabulate2 n d f) (tabulate2 n d g).
Proof.
  intros Hfg. split; [reflexivity | now apply Forall2_tabulate2].
Qed.

Lemma clip_by_abs_compat (bound x y : Q) :
  (x == y)%Q -> (clip_by_abs bound x == clip_by_abs bound y)%Q.
Proof. intros E. unfold clip_by_abs. now rewrite E. Qed.

(** With the identity noise source every drawn factor is one. *)
Lemma identity_noise_draw (r : Randomizer) (n d i k : nat) :
  identity_noise r -> (i < n)%nat -> (k < d)%nat ->
  get2 (fst (gen_epsilon_matrix r [n; d])) i k = 1%Q.
Proof.
  intros Hid Hi Hk. rewrite get2_gen_epsilon_matrix by assumption. apply Hid.
Qed.

Lemma identity_noise_step (timestep : Q) (self : Engine) :
  identity_noise (_rand self) -> identity_noise (_rand (step timestep self)).
Proof. intros Hid k. exact (Hid k). Qed.

(** ** Urgencies and acceleration recorded together *)

(** The urgency snapshot [U] accounts for the acceleration of the state
    snapshot [S]: the sum of its three slices, multiplied by
    [a_max / u_max] and clipped to [a_max], is the acceleration of [S]. *)
Definition round_trip (cfg : Config) (S : State) (U : ndarray Q) : Prop :=
  array_eq (a S)
    (inplace_clip_by_abs
       (scale (add (add (slice U 0) (slice U 1)) (slice U 2))
          (a_max cfg / u_max cfg))
       (a_max cfg)).

Lemma shape_clipped_acceleration (cfg : Config) (u1 u2 u3 : ndarray Q) :
  shape (clipped_acceleration cfg u1 u2 u3) = [axis u1 0; axis u1 1].
Proof. reflexivity. Qed.

Lemma fst_draw (self : Engine) (sh : list nat) :
  fst (draw self sh) = fst (gen_epsilon_matrix (_rand self) sh).
Proof. reflexivity. Qed.

Lemma step_round_trip (timestep : Q) (self : Engine) :
  identity_noise (_rand self) ->
  let us := fst (step_urgencies self) in
  round_trip (_cfg self) (_state (step timestep self))
    (stack3 (fst (fst us)) (snd (fst us)) (snd us)).
Proof.
  intros Hid. cbn zeta. unfold round_trip.
  destruct (step_urgencies_matrix self) as (M1 & M2 & M3). cbn zeta in M1, M2, M3.
  destruct (slice_stack3 M1 M2 M3) as (-> & -> & ->).
  unfold step.
  destruct (step_predators_frame
              (snd (_step_particles self timestep false)) timestep)
    as (_ & _ & -> & _).
  rewrite step_particles_a. cbn zeta.
  destruct M1 as [S1 _]. apply axis_of_shape in S1. destruct S1 as [A0 A1].
  assert (E : forall i k,
             (i < axis (p (_state self)) 0)%nat ->
             (k < axis (p (_state self)) 1)%nat ->
             get2 (acceleration_noise self) i k = 1%Q).
  { intros i k Hi Hk. unfold acceleration_noise.
    rewrite shape_clipped_acceleration, A0, A1, fst_draw.
    apply identity_noise_draw; [|exact Hi|exact Hk].
    rewrite step_urgencies_snd. intros j. exact (Hid j). }
  revert E. generalize (acceleration_noise self).
  revert A0 A1.
  generalize (snd (fst (step_urgencies self))).
  generalize (snd (fst (fst (step_urgencies self)))).
  generalize (fst (fst (fst (step_urgencies self)))).
  generalize (axis (p (_state self)) 0) (axis (p (_state self)) 1).
  generalize (_cfg self).
  clear. intros cfg n d u1 u2 u3 A0 A1 eps E.
  unfold clipped_acceleration.
  set (u_tot := add (add u1 u2) u3).
  assert (T0 : axis u_tot 0 = n) by exact A0.
  assert (T1 : axis u_tot 1 = d) by exact A1.
  clearbody u_tot.
  unfold multiply, zip2d, inplace_clip_by_abs, scale, divide_scalar, map2d.
  cbn [axis shape tabulate2 nth]. fold (axis u_tot 0) (axis u_tot 1).
  rewrite T0, T1.
  apply array_eq_tabulate2. intros i k Hi Hk.
  rewrite E by assumption. rewrite Qmult_1_r.
  rewrite !get2_tabulate2 by assumption.
  apply clip_by_abs_compat.
  unfold Qdiv. ring.
Qed.

Lemma Forall2_nth_error A B (R : A -> B -> Prop) (l1 : list A) (l2 : list B) :
  Forall2 R l1 l2 ->
  forall k x y, nth_error l1 k = Some x -> nth_error l2 k = Some y -> R x y.
Proof.
  induction 1 as [|x0 y0 l1 l2 Hxy _ IH]; intros [|k] x y; cbn; try discriminate.
  - now intros [= <-] [= <-].
  - apply IH.
Qed.

(** Along the loop, with the urgency vectors requested, every pair of
    snapshots appended together satisfies the round trip. *)
Lemma run_loop_round_trip (timestep : Q) (skip : Z) (its : list Z) :
  forall start,
    identity_noise (_rand (loop_self start)) ->
    let l := fold_left (run_body timestep skip true) its start in
    exists ss us,
      loop_states l = loop_states start ++ ss
      /\ loop_urgency_vectors l = loop_urgency_vectors start ++ us
      /\ Forall2 (round_trip (_cfg (loop_self start))) ss us.
Proof.
  induction its as [|it its IH]; intros start Hid; cbn zeta.
  - exists [], []. cbn. now rewrite !app_nil_r.
  - cbn [fold_left].
    set (l1 := run_body timestep skip true start it).
    assert (Hself : loop_self l1 = step timestep (loop_self start))
      by apply run_body_self.
    assert (Hid1 : identity_noise (_rand (loop_self l1))).
    { rewrite Hself. now apply identity_noise_step. }
    destruct (IH l1 Hid1) as (ss & us & Es & Eu & HR). cbn zeta in Es, Eu.
    rewrite Es, Eu. rewrite Hself in HR.
    change (_cfg (step timestep (loop_self start)))
      with (_cfg (loop_self start)) in HR.
    unfold l1. rewrite run_body_states, run_body_urgency_vectors.
    destruct (skip - 1 <? it)%Z.
    + eexists (_ :: ss), (_ :: us). rewrite <- !app_assoc. cbn [app].
      split; [reflexivity|]. split; [reflexivity|].
      constructor; [|exact HR]. now apply step_round_trip.
    + now exists ss, us.
Qed.

(** C4.  With the urgency vectors requested and the identity noise source,
    the result carries one urgency snapshot per state snapshot, and at every
    recorded index [k >= 1] the sum of the three slices of [urgencies[k]],
    multiplied by [a_max / u_max] and clipped to [a_max], is the
    acceleration stored in [states[k]]. *)
Theorem run_urgencies_round_trip (self : Engine) (timestep : Q)
    (iterations skip_initial_states : Z) :
  identity_noise (_rand self) ->
  let r := fst (run self timestep iterations skip_initial_states true) in
  exists us,
    urgencies r = Some us
    /\ List.length us = List.length (states r)
    /\ forall k S U, (1 <= k)%nat ->
         nth_error (states r) k = Some S -> nth_error us k = Some U ->
         array_eq (a S)
           (inplace_clip_by_abs
              (scale (add (add (slice U 0) (slice U 1)) (slice U 2))
                 (a_max (_cfg self) / u_max (_cfg self)))
              (a_max (_cfg self))).
Proof.
  intros Hid. cbn zeta. unfold run. cbn [fst states urgencies].
  eexists. split; [reflexivity|].
  destruct (0 <? skip_initial_states)%Z;
    match goal with
    | |- context [fold_left _ _ ?s] =>
        destruct (@run_loop_round_trip timestep skip_initial_states
                    (range 1 (iterations + 1)) s Hid)
          as (ss & us & Es & Eu & HR)
    end; cbn zeta in Es, Eu; rewrite Es, Eu;
    cbn [loop_states loop_urgency_vectors loop_self app] in *.
  - split; [symmetry; exact (Forall2_length HR)|].
    intros k S U _ HS HU. exact (Forall2_nth_error HR k HS HU).
  - split; [cbn [List.length]; f_equal; symmetry; exact (Forall2_length HR)|].
    intros [|k] S U Hk HS HU; [lia|]. cbn [nth_error] in HS, HU.
    exact (Forall2_nth_error HR k HS HU).
Qed.

(** ** Predator acceleration *)

(** The noise matrix drawn by the predator step of a full iteration. *)
Definition predator_noise (timestep : Q) (self : Engine) : ndarray Q :=
  fst (gen_epsilon_matrix (_rand (snd (_step_particles self timestep false)))
         (shape (pred_a (_state self)))).

(** Over a full iteration the stored predator acceleration is multiplied in
    place by the fresh noise: each step perturbs the value left by the
    previous step, not the initial one. *)
Lemma step_pred_a (timestep : Q) (self : Engine) (i k : nat) :
  (i < axis (pred_a (_state self)) 0)%nat ->
  (k < axis (pred_a (_state self)) 1)%nat ->
  get2 (pred_a (_state (step timestep self))) i k
  = (get2 (pred_a (_state self)) i k * get2 (predator_noise timestep self) i k)%Q.
Proof.
  intros Hi Hk. unfold step, predator_noise.
  rewrite step_predators_pred_a.
  destruct (step_particles_frame self timestep false) as (_ & _ & -> & _).
  unfold multiply. now rewrite get2_zip2d.
Qed.

(** ** What a run records *)

Lemma range_nonneg (iterations : Z) :
  range 1 (iterations + 1) = range 1 (Z.of_nat (Z.to_nat iterations) + 1).
Proof. unfold range. do 2 f_equal. lia. Qed.

Lemma run_nonneg (self : Engine) (timestep : Q) (iterations skip : Z) (flag : bool) :
  run self timestep iterations skip flag
  = run self timestep (Z.of_nat (Z.to_nat iterations)) skip flag.
Proof. unfold run. now rewrite range_nonneg. Qed.

(** The urgency snapshot a step returns when asked: the three urgencies
    computed from the engine as the step finds it. *)
Definition urgency_snapshot (self : Engine) : ndarray Q :=
  let us := fst (step_urgencies self) in
  stack3 (fst (fst us)) (snd (fst us)) (snd us).

Lemma run_loop_urgency_vectors (timestep : Q) (skip : Z) (start : RunLoop) :
  forall n,
    loop_urgency_vectors
      (fold_left (run_body timestep skip true) (range 1 (Z.of_nat n + 1)) start)
    = loop_urgency_vectors start
      ++ map (fun k => urgency_snapshot
                         (Nat.iter (Nat.pred k) (step timestep) (loop_self start)))
           (recorded skip n).
Proof.
  induction n as [|n IH].
  - cbn. now rewrite app_nil_r.
  - rewrite range_snoc, fold_left_app. cbn [fold_left].
    rewrite run_body_urgency_vectors, IH, recorded_S.
    destruct (run_loop_states timestep skip true start n) as [-> _].
    destruct (skip - 1 <? Z.of_nat (S n))%Z.
    + rewrite map_app, app_assoc. reflexivity.
    + now rewrite app_nil_r.
Qed.

(** What the loop of the model records when nothing is skipped; the first
    urgency entry has the axes the model reads off the positions. *)
Lemma run_all_recorded (self : Engine) (timestep : Q)
    (iterations skip_initial_states : Z) :
  (skip_initial_states <= 0)%Z ->
  let N := Z.to_nat iterations in
  let P := p (_state self) in
  let at_step := fun k => Nat.iter k (step timestep) self in
  (forall flag,
     states (fst (run self timestep iterations skip_initial_states flag))
     = map (fun k => _state (at_step k)) (seq 0 (S N)))
  /\ urgencies (fst (run self timestep iterations skip_initial_states true))
     = Some (zeros [3%nat; axis P 0; axis P 1]
             :: map (fun k => urgency_snapshot (at_step k)) (seq 0 N))
  /\ urgencies (fst (run self timestep iterations skip_initial_states false))
     = None.
Proof.
  intros Hskip N P at_step. subst N. set (N := Z.to_nat iterations).
  assert (E0 : (0 <? skip_initial_states)%Z = false) by (apply Z.ltb_ge; lia).
  assert (ER : recorded skip_initial_states N = seq 1 N).
  { rewrite recorded_seq.
    replace (Z.to_nat (skip_initial_states - 1)) with 0%nat by lia.
    now rewrite Nat.sub_0_r. }
  split; [|split].
  - intros flag. rewrite run_nonneg. fold N.
    destruct (run_states self timestep N skip_initial_states flag) as [-> _].
    rewrite E0, ER. reflexivity.
  - rewrite run_nonneg. fold N. unfold run. cbn [fst urgencies]. rewrite E0.
    rewrite run_loop_urgency_vectors. cbn [loop_urgency_vectors loop_self app].
    rewrite ER. do 2 f_equal.
    rewrite <- seq_shift, map_map. reflexivity.
  - reflexivity.
Qed.

(** What the loop of the model records from the first recorded iteration
    on. *)
Lemma run_recorded_from_skip (self : Engine) (timestep : Q)
    (iterations skip_initial_states : Z) :
  (1 <= skip_initial_states)%Z ->
  let N := Z.to_nat iterations in
  let s := Z.to_nat skip_initial_states in
  let at_step := fun k => Nat.iter k (step timestep) self in
  (forall flag,
     states (fst (run self timestep iterations skip_initial_states flag))
     = map (fun k => _state (at_step k)) (seq s (S N - s)))
  /\ urgencies (fst (run self timestep iterations skip_initial_states true))
     = Some (map (fun k => urgency_snapshot (at_step (Nat.pred k)))
               (seq s (S N - s))).
Proof.
  intros Hskip N s at_step. subst N. set (N := Z.to_nat iterations).
  assert (E0 : (0 <? skip_initial_states)%Z = true) by (apply Z.ltb_lt; lia).
  assert (ER : recorded skip_initial_states N = seq s (S N - s)).
  { rewrite recorded_seq. f_equal; lia. }
  split.
  - intros flag. rewrite run_nonneg. fold N.
    destruct (run_states self timestep N skip_initial_states flag) as [-> _].
    rewrite E0, ER. reflexivity.
  - rewrite run_nonneg. fold N. unfold run. cbn [fst urgencies]. rewrite E0.
    rewrite run_loop_urgency_vectors. cbn [loop_urgency_vectors loop_self app].
    now rewrite ER.
Qed.

(** X3.  Recording never changes the simulation: whatever is skipped and
    whether or not the urgency vectors are returned, the run leaves the
    engine where [iterations] steps take it (none for a negative count). *)
Theorem run_final_engine (self : Engine) (timestep : Q)
    (iterations skip_initial_states : Z) (return_urgency_vectors : bool) :
  snd (run self timestep iterations skip_initial_states return_urgency_vectors)
  = Nat.iter (Z.to_nat iterations) (step timestep) self.
Proof.
  unfold run. cbn [snd].
  destruct (0 <? skip_initial_states)%Z;
    rewrite run_loop_self, range_length; cbn [loop_self]; f_equal; lia.
Qed.

(** X1.  On a well-shaped engine with nothing skipped
    ([skip_initial_states <= 0], negative values included) the run records
    the initial state followed by the state after each step, and, when
    asked, a zero array of shape [(3, n, d)] followed by the urgencies of
    each step: [urgencies[k]] for [k >= 1] is computed from [states[k-1]]'s
    engine.  A negative iteration count behaves as zero. *)
Theorem run_records_everything (self : Engine) (timestep : Q)
    (iterations skip_initial_states : Z) (n d m : nat) :
  well_shaped n d m self ->
  (skip_initial_states <= 0)%Z ->
  let N := Z.to_nat iterations in
  let at_step := fun k => Nat.iter k (step timestep) self in
  (forall flag,
     states (fst (run self timestep iterations skip_initial_states flag))
     = map (fun k => _state (at_step k)) (seq 0 (S N)))
  /\ urgencies (fst (run self timestep iterations skip_initial_states true))
     = Some (zeros [3%nat; n; d]
             :: map (fun k => urgency_snapshot (at_step k)) (seq 0 N))
  /\ urgencies (fst (run self timestep iterations skip_initial_states false))
     = None.
Proof.
  intros (_ & (Hp & _) & _) Hskip N at_step.
  destruct (@run_all_recorded self timestep iterations skip_initial_states Hskip)
    as (Hs & Hu & Hn).
  destruct (axis_of_shape _ Hp) as [A0 A1].
  cbn zeta in Hu. rewrite A0, A1 in Hu.
  split; [exact Hs|]. split; [exact Hu | exact Hn].
Qed.

(** X2.  On a well-shaped engine with [skip_initial_states >= 1] the run
    drops the initial state and the states after the first
    [skip_initial_states - 1] steps: entry [k] of [states] is the state after
    [skip_initial_states + k] steps, up to the last step; when asked, entry
    [k] of [urgencies] holds the urgencies computed during that same step. *)
Theorem run_records_from_skip (self : Engine) (timestep : Q)
    (iterations skip_initial_states : Z) (n d m : nat) :
  well_shaped n d m self ->
  (1 <= skip_initial_states)%Z ->
  let N := Z.to_nat iterations in
  let s := Z.to_nat skip_initial_states in
  let at_step := fun k => Nat.iter k (step timestep) self in
  (forall flag,
     states (fst (run self timestep iterations skip_initial_states flag))
     = map (fun k => _state (at_step k)) (seq s (S N - s)))
  /\ urgencies (fst (run self timestep iterations skip_initial_states true))
     = Some (map (fun k => urgency_snapshot (at_step (Nat.pred k)))
               (seq s (S N - s))).
Proof.
  intros _ Hskip.
  exact (@run_recorded_from_skip self timestep iterations skip_initial_states
           Hskip).
Qed.

(** ** Sums *)

Lemma Qsum_map_ext (f g : nat -> Q) (l : list nat) :
  (forall j, In j l -> (f j == g j)%Q) ->
  (Qsum (map f l) == Qsum (map g l))%Q.
Proof.
  induction l as [|x l IH]; intros Hfg; [reflexivity|].
  cbn [map]. rewrite !Qsum_cons, IH.
  - now rewrite (Hfg x (or_introl eq_refl)).
  - intros j Hj. apply Hfg. now right.
Qed.

Lemma Qsum_upto_ext (n : nat) (f g : nat -> Q) :
  (forall j, (j < n)%nat -> (f j == g j)%Q) ->
  (Qsum_upto n f == Qsum_upto n g)%Q.
Proof.
  intros Hfg. apply Qsum_map_ext. intros j Hj. apply in_seq in Hj.
  apply Hfg. lia.
Qed.

Lemma Qsum_app (l1 l2 : list Q) : (Qsum (l1 ++ l2) == Qsum l1 + Qsum l2)%Q.
Proof.
  induction l1 as [|x l1 IH]; cbn [app].
  - change (Qsum []) with 0%Q. ring.
  - rewrite !Qsum_cons, IH. ring.
Qed.

Lemma Qsum_upto_S (n : nat) (f : nat -> Q) :
  (Qsum_upto (S n) f == Qsum_upto n f + f n)%Q.
Proof.
  unfold Qsum_upto. rewrite seq_S, map_app, Qsum_app. cbn [map Nat.add].
  rewrite Qsum_cons. change (Qsum []) with 0%Q. ring.
Qed.

(** A sum with a single term that may differ from zero. *)
Lemma Qsum_upto_single (n j0 : nat) (f : nat -> Q) :
  (j0 < n)%nat ->
  (forall j, (j < n)%nat -> j <> j0 -> (f j == 0)%Q) ->
  (Qsum_upto n f == f j0)%Q.
Proof.
  induction n as [|n IH]; intros Hj0 Hz; [lia|].
  rewrite Qsum_upto_S.
  destruct (Nat.eq_dec j0 n) as [->|Hne].
  - rewrite Qsum_upto_zero; [ring|]. intros j Hj. apply Hz; lia.
  - rewrite IH, (Hz n); [ring | lia | lia | lia |].
    intros j Hj Hj'. apply Hz; lia.
Qed.

(** Summing a constant over the indices a predicate selects. *)
Lemma Qsum_indicator (m : nat -> bool) (x : Q) (l : list nat) :
  (Qsum (map (fun j => if m j then x else 0) l)
   == inject_Z (Z.of_nat (List.length (filter m l))) * x)%Q.
Proof.
  induction l as [|j l IH]; [cbn [map filter List.length]; change (Qsum []) with 0%Q; ring|].
  cbn [map filter]. rewrite Qsum_cons, IH.
  destruct (m j); [|ring].
  cbn [List.length]. rewrite Nat2Z.inj_succ. unfold Z.succ.
  rewrite inject_Z_plus. ring.
Qed.

(** ** The weights *)

(** X4.  The cohesion weights of a particle that has at least one other
    particle in range add up to one: the perceived barycentre is a mean of
    the positions in range. *)
Theorem u1_weights_row_sum (cfg : Config) (distances : ndarray Q) (i j : nat) :
  (i < axis distances 0)%nat -> (j < axis distances 1)%nat ->
  get2 (in_range_mask distances (d_max cfg)) i j = true ->
  (Qsum_upto (axis distances 1) (fun j' => get2 (u1_weights cfg distances) i j')
   == 1)%Q.
Proof.
  intros Hi Hj Hm.
  set (mask := in_range_mask distances (d_max cfg)) in *.
  set (c := get2 (count_nonzero_rows mask) i 0).
  rewrite (@Qsum_upto_ext _ _
             (fun j' => if get2 mask i j' then (1 / inject_Z (Z.of_nat c))%Q else 0%Q)).
  2:{ intros j' Hj'. now rewrite get2_u1_weights by assumption. }
  unfold Qsum_upto. rewrite Qsum_indicator.
  match goal with
  | |- context [List.length ?l] => replace (List.length l) with c
  end.
  2:{ unfold c, count_nonzero_rows.
      rewrite get2_tabulate2 by (exact Hi || lia). reflexivity. }
  assert (Hc : (0 < c)%nat)
    by exact (@count_nonzero_rows_positive mask i j Hi Hj Hm).
  assert (Hq : ~ (inject_Z (Z.of_nat c) == 0)%Q).
  { change 0%Q with (inject_Z 0). rewrite inject_Z_injective. lia. }
  field. exact Hq.
Qed.

(** The shape of the repulsion weight for a range bound [b] and a distance
    [x] in range: never negative, and once multiplied by the distance it is
    the linear ramp [(b - x) / b], which lies in [[0, 1)]. *)
Lemma repulsion_ramp (b x : Q) :
  (0 < x)%Q -> (x <= b)%Q ->
  (0 <= (b - x) / (b * x))%Q
  /\ ((b - x) / (b * x) * x == (b - x) / b)%Q
  /\ (0 <= (b - x) / b)%Q /\ ((b - x) / b < 1)%Q.
Proof.
  intros Hx Hb.
  assert (Hb0 : (0 < b)%Q) by lra.
  assert (Hbx : (0 < b * x)%Q) by nra.
  split; [|split; [|split]].
  - apply Qle_shift_div_l; [exact Hbx | lra].
  - field. split; lra.
  - apply Qle_shift_div_l; [exact Hb0 | lra].
  - apply Qlt_shift_div_r; [exact Hb0 | lra].
Qed.

(** X5.  The repulsion weights of urgency 2 and urgency 3 are never
    negative.  For a pair in range the weight times the distance is the
    linear ramp of the docstring, [(bound - distance) / bound], which is at
    least zero (reached at [distance = bound]) and stays below one. *)
Theorem repulsion_weights_ramp (cfg : Config) (state : State) (i j : nat) :
  let D := squareform_pdist (p state) in
  let DP := distances_from_predators state in
  (i < axis (p state) 0)%nat ->
  ((j < axis (p state) 0)%nat ->
     (0 <= get2 (u2_weights cfg D) i j)%Q
     /\ (get2 (in_range_mask D (u2_dopt cfg)) i j = true ->
         (get2 (u2_weights cfg D) i j * get2 D i j
          == (u2_dopt cfg - get2 D i j) / u2_dopt cfg)%Q
         /\ (0 <= (u2_dopt cfg - get2 D i j) / u2_dopt cfg)%Q
         /\ ((u2_dopt cfg - get2 D i j) / u2_dopt cfg < 1)%Q))
  /\ ((j < axis (pred_p state) 0)%nat ->
     (0 <= get2 (u3_weights cfg state) i j)%Q
     /\ (get2 (in_range_mask DP (u3_dmax cfg)) i j = true ->
         (get2 (u3_weights cfg state) i j * get2 DP i j
          == (u3_dmax cfg - get2 DP i j) / u3_dmax cfg)%Q
         /\ (0 <= (u3_dmax cfg - get2 DP i j) / u3_dmax cfg)%Q
         /\ ((u3_dmax cfg - get2 DP i j) / u3_dmax cfg < 1)%Q)).
Proof.
  intros D DP Hi. split; intros Hj.
  - rewrite (@get2_u2_weights cfg D i j Hi Hj).
    destruct (get2 (in_range_mask D (u2_dopt cfg)) i j) eqn:Em.
    + apply (@in_range_mask_true D (u2_dopt cfg) i j Hi Hj) in Em.
      destruct Em as [Hx Hb].
      destruct (repulsion_ramp Hx Hb) as (R1 & R2 & R3 & R4).
      split; [exact R1|]. intros _. auto.
    + split; [lra | discriminate].
  - rewrite (@get2_u3_weights cfg state i j Hi Hj). fold DP.
    destruct (get2 (in_range_mask DP (u3_dmax cfg)) i j) eqn:Em.
    + apply (@in_range_mask_true DP (u3_dmax cfg) i j Hi Hj) in Em.
      destruct Em as [Hx Hb].
      destruct (repulsion_ramp Hx Hb) as (R1 & R2 & R3 & R4).
      split; [exact R1|]. intros _. auto.
    + split; [lra | discriminate].
Qed.

(** ** More of the two steps, field by field *)

Lemma shape_zip2d A B C `{Default A} `{Default B}
    (f : A -> B -> C) (x : ndarray A) (y : ndarray B) :
  shape (zip2d f x y) = [axis x 0; axis x 1].
Proof. reflexivity. Qed.

Lemma shape_map2d A B `{Default A} (f : A -> B) (x : ndarray A) :
  shape (map2d f x) = [axis x 0; axis x 1].
Proof. reflexivity. Qed.

Lemma axis_tabulate2_0 A (n d : nat) (f : nat -> nat -> A) :
  axis (tabulate2 n d f) 0 = n.
Proof. reflexivity. Qed.

Lemma axis_tabulate2_1 A (n d : nat) (f : nat -> nat -> A) :
  axis (tabulate2 n d f) 1 = d.
Proof. reflexivity. Qed.

Lemma step_particles_p (self : Engine) (timestep : Q) (flag : bool) :
  p (_state (snd (_step_particles self timestep flag)))
  = add (p (_state self))
      (scale (v (_state (snd (_step_particles self timestep flag)))) timestep).
Proof. reflexivity. Qed.

Lemma step_particles_rand (self : Engine) (timestep : Q) (flag : bool) :
  _rand (snd (_step_particles self timestep flag))
  = advance (_rand (snd (step_urgencies self)))
      (size [axis (fst (fst (fst (step_urgencies self)))) 0;
             axis (fst (fst (fst (step_urgencies self)))) 1]).
Proof. reflexivity. Qed.

Lemma step_predators_rand (self : Engine) (timestep : Q) :
  _rand (_step_predators self timestep)
  = advance (_rand self) (size (shape (pred_a (_state self)))).
Proof. reflexivity. Qed.

Lemma step_predators_pred_v (self : Engine) (timestep : Q) :
  pred_v (_state (_step_predators self timestep))
  = add (pred_v (_state self))
      (scale (pred_a (_state (_step_predators self timestep))) timestep).
Proof. reflexivity. Qed.

Lemma step_predators_pred_p (self : Engine) (timestep : Q) :
  pred_p (_state (_step_predators self timestep))
  = add (pred_p (_state self))
      (scale (pred_v (_state (_step_predators self timestep))) timestep).
Proof. reflexivity. Qed.

(** The shapes of the six arrays after a full iteration, from the shapes
    before: every array keeps its two axes, and the acceleration takes the
    axes of the positions. *)
Lemma step_shapes (timestep : Q) (self : Engine) :
  let S := _state self in
  let S' := _state (step timestep self) in
  shape (p S') = [axis (p S) 0; axis (p S) 1]
  /\ shape (v S') = [axis (v S) 0; axis (v S) 1]
  /\ shape (a S') = [axis (p S) 0; axis (p S) 1]
  /\ shape (pred_p S') = [axis (pred_p S) 0; axis (pred_p S) 1]
  /\ shape (pred_v S') = [axis (pred_v S) 0; axis (pred_v S) 1]
  /\ shape (pred_a S') = [axis (pred_a S) 0; axis (pred_a S) 1].
Proof.
  cbn zeta. unfold step.
  set (s1 := snd (_step_particles self timestep false)).
  destruct (step_predators_frame s1 timestep) as (-> & -> & -> & _).
  rewrite step_predators_pred_p, step_predators_pred_v, step_predators_pred_a.
  destruct (step_particles_frame self timestep false) as (Epp & Epv & Epa & _).
  fold s1 in Epp, Epv, Epa. rewrite Epp, Epv, Epa.
  unfold s1. rewrite step_particles_p, step_particles_v, step_particles_a.
  cbn zeta.
  destruct (step_urgencies_matrix self) as ([S1 _] & _). cbn zeta in S1.
  apply axis_of_shape in S1. destruct S1 as [A0 A1].
  unfold clipped_acceleration, add, multiply, inplace_clip_by_abs, scale,
    divide_scalar, zip2d, map2d.
  rewrite !shape_tabulate2, !axis_tabulate2_0, !axis_tabulate2_1, A0, A1.
  repeat split.
Qed.

Lemma step_state_shapes (timestep : Q) (self : Engine) (n d m : nat) :
  state_shapes n d m (_state self) ->
  state_shapes n d m (_state (step timestep self)).
Proof.
  intros (Hp & Hv & Ha & Hpp & Hpv & Hpa).
  destruct (step_shapes timestep self) as (Ep & Ev & Ea & Epp & Epv & Epa).
  cbn zeta in *. unfold state_shapes.
  rewrite Ep, Ev, Ea, Epp, Epv, Epa. unfold axis.
  rewrite Hp, Hv, Hpp, Hpv, Hpa. repeat split.
Qed.

Lemma iter_state_shapes (timestep : Q) (self : Engine) (n d m k : nat) :
  state_shapes n d m (_state self) ->
  state_shapes n d m (_state (Nat.iter k (step timestep) self)).
Proof.
  intros H. induction k as [|k IH]; [exact H|].
  rewrite Nat.iter_succ. now apply step_state_shapes.
Qed.

Lemma step_cfg (timestep : Q) (self : Engine) :
  _cfg (step timestep self) = _cfg self.
Proof.
  unfold step.
  destruct (step_predators_frame
              (snd (_step_particles self timestep false)) timestep)
    as (_ & _ & _ & -> & _).
  now destruct (step_particles_frame self timestep false)
    as (_ & _ & _ & -> & _).
Qed.

Lemma iter_cfg (timestep : Q) (self : Engine) (k : nat) :
  _cfg (Nat.iter k (step timestep) self) = _cfg self.
Proof.
  induction k as [|k IH]; [reflexivity|].
  now rewrite Nat.iter_succ, step_cfg.
Qed.

(** The states a run records are among the states the engine passes
    through. *)
Lemma run_states_are_iterates (self : Engine) (timestep : Q)
    (iterations skip : Z) (flag : bool) (S : State) :
  In S (states (fst (run self timestep iterations skip flag))) ->
  exists k, S = _state (Nat.iter k (step timestep) self).
Proof.
  rewrite run_nonneg.
  destruct (run_states self timestep (Z.to_nat iterations) skip flag) as [-> _].
  intros H. apply in_app_or in H. destruct H as [H|H].
  - destruct (0 <? skip)%Z; [destruct H|].
    destruct H as [<-|[]]. now exists 0%nat.
  - apply in_map_iff in H. destruct H as (k & <- & _). now exists k.
Qed.

(** X6.  The run keeps what the constructor checked: if the state starts
    with particle arrays of shape [(n, d)], predator arrays of shape [(m, d)]
    and a weight matrix of shape [(n, 3)], then every recorded state has
    arrays of these shapes and would pass the constructor's sanity check
    again, and the engine the run leaves behind still holds the same
    configuration. *)
Theorem run_preserves_shapes (self : Engine) (timestep : Q)
    (iterations skip_initial_states : Z) (return_urgency_vectors : bool)
    (n d m : nat) :
  state_shapes n d m (_state self) ->
  shape (uw (_cfg self)) = [n; 3%nat] ->
  let r := run self timestep iterations skip_initial_states
             return_urgency_vectors in
  Forall (fun S => state_shapes n d m S /\ ~ shape_mismatch S (_cfg self))
    (states (fst r))
  /\ _cfg (snd r) = _cfg self.
Proof.
  intros Hs Huw r. split.
  - apply Forall_forall. intros S HS.
    apply run_states_are_iterates in HS. destruct HS as (k & ->).
    assert (H := @iter_state_shapes timestep self n d m k Hs).
    split; [exact H|].
    destruct H as (Hp & Hv & Ha & _).
    intros [E|[E|(n' & En & E)]].
    + apply E. congruence.
    + apply E. congruence.
    + rewrite Hp in En. injection En as <-. apply E. exact Huw.
  - unfold r. rewrite run_final_engine. apply iter_cfg.
Qed.

(** X7.  A particle step moves every particle by at most
    [v_max * |timestep|] along each axis: the new position is the old one
    plus the clipped velocity times the time step. *)
Theorem step_particles_displacement_bounded (self : Engine) (timestep : Q)
    (return_urgency_vectors : bool) (i k : nat) :
  let S := _state self in
  let S' := _state (snd (_step_particles self timestep return_urgency_vectors)) in
  (0 <= v_max (_cfg self))%Q ->
  shape (v S) = shape (p S) ->
  (i < axis (p S) 0)%nat -> (k < axis (p S) 1)%nat ->
  (get2 (p S') i k == get2 (p S) i k + get2 (v S') i k * timestep)%Q
  /\ (Qabs (get2 (p S') i k - get2 (p S) i k)
      <= v_max (_cfg self) * Qabs timestep)%Q.
Proof.
  intros S S' Hmax Hshape Hi Hk.
  assert (Av0 : axis (v S) 0 = axis (p S) 0) by (unfold axis; now rewrite Hshape).
  assert (Av1 : axis (v S) 1 = axis (p S) 1) by (unfold axis; now rewrite Hshape).
  assert (Hv : (Qabs (get2 (v S') i k) <= v_max (_cfg self))%Q).
  { unfold S'. rewrite step_particles_v. cbn zeta. unfold inplace_clip_by_abs.
    rewrite get2_map2d.
    - now apply clip_by_abs_bounded.
    - change (i < axis (v S) 0)%nat. now rewrite Av0.
    - change (k < axis (v S) 1)%nat. now rewrite Av1. }
  assert (Ep : get2 (p S') i k = (get2 (p S) i k + get2 (v S') i k * timestep)%Q).
  { unfold S' at 1. rewrite step_particles_p. fold S'. unfold add.
    rewrite get2_zip2d by assumption. f_equal.
    unfold scale. rewrite get2_map2d; [reflexivity| |].
    - unfold S'. rewrite step_particles_v. cbn zeta.
      change (i < axis (v S) 0)%nat. now rewrite Av0.
    - unfold S'. rewrite step_particles_v. cbn zeta.
      change (k < axis (v S) 1)%nat. now rewrite Av1. }
  split; [now rewrite Ep|].
  rewrite Ep.
  setoid_replace (get2 (p S) i k + get2 (v S') i k * timestep - get2 (p S) i k)%Q
    with (get2 (v S') i k * timestep)%Q by ring.
  rewrite Qabs_Qmult.
  apply Qmult_le_compat_r; [exact Hv | apply Qabs_nonneg].
Qed.

(** ** Noise consumption *)

Lemma step_noise (timestep : Q) (self : Engine) (n d m d' : nat) :
  shape (p (_state self)) = [n; d] ->
  shape (pred_a (_state self)) = [m; d'] ->
  factors (_rand (step timestep self)) = factors (_rand self)
  /\ cursor (_rand (step timestep self))
     = (cursor (_rand self) + (4 * (n * d) + m * d'))%nat.
Proof.
  intros Hp Hpa. unfold step.
  rewrite step_predators_rand.
  destruct (step_particles_frame self timestep false) as (_ & _ & -> & _).
  rewrite step_particles_rand, step_urgencies_snd.
  destruct (step_urgencies_matrix self) as ([S1 _] & _). cbn zeta in S1.
  apply axis_of_shape in S1. destruct S1 as [-> ->].
  destruct (axis_of_shape _ Hp) as [-> ->].
  rewrite Hp, Hpa, !size_matrix.
  cbn [advance factors cursor _rand]. split; [reflexivity | lia].
Qed.

(** X8.  A full iteration consumes four noise matrices of the shape of the
    positions and one of the shape of the predator acceleration, and never
    changes the source otherwise: after a run the cursor has advanced by
    [iterations * (4 * n * d + m * d)] factors. *)
Theorem run_noise_consumption (self : Engine) (timestep : Q)
    (iterations skip_initial_states : Z) (return_urgency_vectors : bool)
    (n d m : nat) :
  state_shapes n d m (_state self) ->
  let r := run self timestep iterations skip_initial_states
             return_urgency_vectors in
  factors (_rand (snd r)) = factors (_rand self)
  /\ cursor (_rand (snd r))
     = (cursor (_rand self) + Z.to_nat iterations * (4 * (n * d) + m * d))%nat.
Proof.
  intros Hs r. unfold r. rewrite run_final_engine.
  induction (Z.to_nat iterations) as [|k [IHf IHc]].
  - change (Nat.iter 0 (step timestep) self) with self.
    split; [reflexivity | lia].
  - rewrite Nat.iter_succ.
    destruct (@iter_state_shapes timestep self n d m k Hs)
      as (Hp & _ & _ & _ & _ & Hpa).
    destruct (@step_noise timestep (Nat.iter k (step timestep) self) n d m d Hp Hpa)
      as [Ef Ec].
    rewrite Ef, Ec, IHf, IHc. split; [reflexivity | lia].
Qed.

(** ** Shapes of the urgency snapshots *)

Lemma shape_urgency_snapshot (self : Engine) :
  shape (urgency_snapshot self)
  = [3%nat; axis (p (_state self)) 0; axis (p (_state self)) 1].
Proof.
  unfold urgency_snapshot, stack3. cbn [shape].
  destruct (step_urgencies_matrix self) as ([S1 _] & _). cbn zeta in S1.
  now rewrite S1.
Qed.

Lemma iter_axis_p (timestep : Q) (self : Engine) (k : nat) :
  axis (p (_state (Nat.iter k (step timestep) self))) 0 = axis (p (_state self)) 0
  /\ axis (p (_state (Nat.iter k (step timestep) self))) 1
     = axis (p (_state self)) 1.
Proof.
  induction k as [|k [IH0 IH1]]; [split; reflexivity|].
  rewrite Nat.iter_succ.
  destruct (step_shapes timestep (Nat.iter k (step timestep) self)) as (Ep & _).
  cbn zeta in Ep. unfold axis at 1 3. rewrite Ep. cbn [nth].
  split; assumption.
Qed.

(** The entries of the returned [urgencies] all have the axes the model
    reads off the initial positions. *)
Lemma run_urgencies_axes (self : Engine) (timestep : Q)
    (iterations skip_initial_states : Z) :
  match urgencies (fst (run self timestep iterations skip_initial_states true)) with
  | Some us =>
      Forall (fun U => shape U = [3%nat; axis (p (_state self)) 0;
                                  axis (p (_state self)) 1]) us
  | None => False
  end.
Proof.
  assert (Hsnap : forall l (g : nat -> nat),
            Forall (fun U => shape U = [3%nat; axis (p (_state self)) 0;
                                        axis (p (_state self)) 1])
              (map (fun k => urgency_snapshot
                                (Nat.iter (g k) (step timestep) self)) l)).
  { intros l g. apply Forall_forall. intros U HU.
    apply in_map_iff in HU. destruct HU as (k & <- & _).
    rewrite shape_urgency_snapshot.
    destruct (iter_axis_p timestep self (g k)) as [-> ->]. reflexivity. }
  destruct (Z_le_gt_dec skip_initial_states 0) as [Hle|Hgt].
  - destruct (@run_all_recorded self timestep iterations
                skip_initial_states Hle) as (_ & E & _).
    cbn zeta in E. rewrite E.
    constructor; [reflexivity|]. apply (Hsnap _ (fun k => k)).
  - destruct (@run_recorded_from_skip self timestep iterations
                skip_initial_states ltac:(lia)) as (_ & E).
    cbn zeta in E. rewrite E. apply (Hsnap _ Nat.pred).
Qed.

(** X9.  On a well-shaped engine, with the urgency vectors requested, the
    result's [urgencies] is present and every entry has shape [(3, n, d)]:
    the zero array recorded before the first step and the snapshot of every
    step alike. *)
Theorem run_urgencies_shapes (self : Engine) (timestep : Q)
    (iterations skip_initial_states : Z) (n d m : nat) :
  well_shaped n d m self ->
  match urgencies (fst (run self timestep iterations skip_initial_states true)) with
  | Some us => Forall (fun U => shape U = [3%nat; n; d]) us
  | None => False
  end.
Proof.
  intros (_ & (Hp & _) & _).
  destruct (axis_of_shape _ Hp) as [A0 A1].
  assert (H := run_urgencies_axes self timestep iterations skip_initial_states).
  rewrite A0, A1 in H. exact H.
Qed.

(** ** The constructor on arrays without a first axis *)

(** X10.  When [p], [v] and [a] are all zero-dimensional the first two
    tests pass and reading [p.shape[0]] fails: construction raises
    [IndexError], not the shape-mismatch [ValueError]; this is the only way
    the constructor raises [IndexError]. *)
Theorem init_index_error (state : State) (cfg : Config) (rand : Randomizer) :
  (exists msg, __init__ state cfg rand = Raise (IndexError msg))
  <-> shape (p state) = [] /\ shape (v state) = [] /\ shape (a state) = [].
Proof.
  unfold __init__.
  destruct (tuple_eqb (shape (p state)) (shape (v state))) eqn:Ev; cbn [negb].
  2:{ apply tuple_eqb_neq in Ev. split.
      - intros [msg [=]].
      - intros (Hp & Hv & _). congruence. }
  destruct (tuple_eqb (shape (p state)) (shape (a state))) eqn:Ea; cbn [negb].
  2:{ apply tuple_eqb_neq in Ea. split.
      - intros [msg [=]].
      - intros (Hp & _ & Ha). congruence. }
  apply tuple_eqb_eq in Ev, Ea.
  destruct (shape (p state)) as [|n rest].
  - split; [auto | eauto].
  - split.
    + destruct (negb (tuple_eqb (shape (uw cfg)) [n; 3%nat])); intros [msg [=]].
    + intros ([=] & _).
Qed.

(** ** Cohesion towards a single neighbour *)

(** X11.  A particle with exactly one other particle in range of [d_max]
    perceives that particle's position as the barycentre: its urgency 1 is
    the displacement towards the neighbour, times the noise factor, [u1_p]
    and the particle's own weight. *)
Theorem single_neighbour_cohesion (self : Engine) (i j0 k : nat) :
  let P := p (_state self) in
  let cfg := _cfg self in
  let D := squareform_pdist P in
  let eps := fst (gen_epsilon_matrix (_rand self) (shape P)) in
  let u1 := fst (fst (fst (step_urgencies self))) in
  (i < axis P 0)%nat -> (j0 < axis P 0)%nat -> (k < axis P 1)%nat ->
  (0 < get2 D i j0 /\ get2 D i j0 <= d_max cfg)%Q ->
  (forall j, (j < axis P 0)%nat -> j <> j0 -> j <> i ->
     ~ (0 < get2 D i j /\ get2 D i j <= d_max cfg)%Q) ->
  (get2 u1 i k
   == (get2 P j0 k - get2 P i k) * get2 eps i k * u1_p cfg * get2 (uw cfg) i 0)%Q.
Proof.
  intros P cfg D eps u1 Hi Hj0 Hk Hin Hout.
  assert (Hm0 : get2 (in_range_mask D (d_max cfg)) i j0 = true)
    by (apply in_range_mask_true; assumption).
  assert (Hm : forall j, (j < axis P 0)%nat -> j <> j0 ->
             get2 (in_range_mask D (d_max cfg)) i j = false).
  { intros j Hj Hne.
    destruct (Nat.eq_dec j i) as [->|Hni].
    - apply in_range_mask_zero; try exact Hi.
      unfold D. now rewrite squareform_pdist_diagonal.
    - destruct (get2 (in_range_mask D (d_max cfg)) i j) eqn:E; [|reflexivity].
      apply in_range_mask_true in E; try assumption.
      exfalso. exact (Hout j Hj Hne Hni E). }
  assert (Hw : forall j, (j < axis P 0)%nat -> j <> j0 ->
             get2 (u1_weights cfg D) i j = 0%Q).
  { intros j Hj Hne. rewrite get2_u1_weights by assumption.
    now rewrite (Hm j Hj Hne). }
  assert (Hw0 : (get2 (u1_weights cfg D) i j0 == 1)%Q).
  { rewrite <- (@u1_weights_row_sum cfg D i j0 Hi Hj0 Hm0).
    symmetry. apply Qsum_upto_single; [exact Hj0|].
    intros j Hj Hne. now rewrite (Hw j Hj Hne). }
  change u1 with (fst (_calculate_urgency1 self D)).
  rewrite get2_calculate_urgency1 by first [exact Hi | exact Hk].
  fold P. fold cfg. fold eps.
  rewrite (@Qsum_upto_single (axis D 1) j0); [now rewrite Hw0, Qmult_1_l | exact Hj0 |].
  intros j Hj Hne. cbn beta. rewrite (Hw j Hj Hne). ring.
Qed.

(** ** Symmetry of the repulsion *)

Lemma squareform_pdist_symmetric (x : ndarray Q) (i j : nat) :
  (i < axis x 0)%nat -> (j < axis x 0)%nat ->
  get2 (squareform_pdist x) i j = get2 (squareform_pdist x) j i.
Proof.
  intros Hi Hj. unfold squareform_pdist.
  rewrite !get2_tabulate2 by assumption.
  now rewrite (Nat.eqb_sym j i), (Nat.min_comm j i), (Nat.max_comm j i).
Qed.

(** X12.  The repulsion between two particles is mutual: the weight of
    [j] for [i] is the weight of [i] for [j], so the weighted displacement
    that pushes [i] away from [j] is the opposite of the one that pushes [j]
    away from [i] (before noise and the per-particle weights [uw]). *)
Theorem repulsion_is_mutual (cfg : Config) (x : ndarray Q) (i j k : nat) :
  let D := squareform_pdist x in
  (i < axis x 0)%nat -> (j < axis x 0)%nat ->
  get2 (u2_weights cfg D) i j = get2 (u2_weights cfg D) j i
  /\ (get2 (u2_weights cfg D) i j * (get2 x i k - get2 x j k)
      == - (get2 (u2_weights cfg D) j i * (get2 x j k - get2 x i k)))%Q.
Proof.
  intros D Hi Hj.
  assert (E : get2 (u2_weights cfg D) i j = get2 (u2_weights cfg D) j i).
  { rewrite (@get2_u2_weights cfg D i j Hi Hj), (@get2_u2_weights cfg D j i Hj Hi).
    rewrite (@get2_in_range_mask D (u2_dopt cfg) i j Hi Hj).
    rewrite (@get2_in_range_mask D (u2_dopt cfg) j i Hj Hi).
    unfold D. now rewrite (@squareform_pdist_symmetric x i j Hi Hj). }
  split; [exact E|]. rewrite E. ring.
Qed.

(** ** Predators under the identity noise source *)

Lemma iter_identity_noise (timestep : Q) (self : Engine) (k : nat) :
  identity_noise (_rand self) ->
  identity_noise (_rand (Nat.iter k (step timestep) self)).
Proof.
  intros Hid. induction k as [|k IH]; [exact Hid|].
  rewrite Nat.iter_succ. now apply identity_noise_step.
Qed.

Lemma step_predators_identity (timestep : Q) (self : Engine) (m d i k : nat) :
  identity_noise (_rand self) ->
  shape (pred_a (_state self)) = [m; d] ->
  shape (pred_v (_state self)) = [m; d] ->
  (i < m)%nat -> (k < d)%nat ->
  let S := _state self in
  let S' := _state (step timestep self) in
  (get2 (pred_a S') i k == get2 (pred_a S) i k)%Q
  /\ (get2 (pred_v S') i k
      == get2 (pred_v S) i k + get2 (pred_a S) i k * timestep)%Q.
Proof.
  intros Hid Hpa Hpv Hi Hk. cbn zeta.
  destruct (axis_of_shape _ Hpa) as [Aa0 Aa1].
  destruct (axis_of_shape _ Hpv) as [Av0 Av1].
  assert (Ea : (get2 (pred_a (_state (step timestep self))) i k
                == get2 (pred_a (_state self)) i k)%Q).
  { rewrite step_pred_a by lia.
    unfold predator_noise. rewrite Hpa.
    rewrite identity_noise_draw; [ring | | exact Hi | exact Hk].
    destruct (step_particles_frame self timestep false) as (_ & _ & _ & _ & Ef).
    cbn zeta in Ef. intros j. rewrite Ef. apply Hid. }
  split; [exact Ea|].
  rewrite <- Ea. unfold step.
  rewrite step_predators_pred_v.
  destruct (step_particles_frame self timestep false) as (_ & Epv & Epa & _).
  cbn zeta in Epv, Epa. rewrite Epv.
  unfold add. rewrite get2_zip2d by lia.
  unfold scale. rewrite get2_map2d; [reflexivity| |].
  - rewrite step_predators_pred_a, Epa.
    unfold multiply, zip2d. rewrite axis_tabulate2_0. lia.
  - rewrite step_predators_pred_a, Epa.
    unfold multiply, zip2d. rewrite axis_tabulate2_1. lia.
Qed.

(** X13.  With the identity noise source the predators move under constant
    acceleration: after any number [N] of iterations the acceleration is the
    initial one and the velocity is the initial one plus [N] times
    [pred_a * timestep], component by component. *)
Theorem predators_constant_acceleration (self : Engine) (timestep : Q)
    (n d m N i k : nat) :
  identity_noise (_rand self) ->
  state_shapes n d m (_state self) ->
  (i < m)%nat -> (k < d)%nat ->
  let S := _state self in
  let SN := _state (Nat.iter N (step timestep) self) in
  (get2 (pred_a SN) i k == get2 (pred_a S) i k)%Q
  /\ (get2 (pred_v SN) i k
      == get2 (pred_v S) i k
         + inject_Z (Z.of_nat N) * (get2 (pred_a S) i k * timestep))%Q.
Proof.
  intros Hid Hs Hi Hk S. induction N as [|N [IHa IHv]]; cbn zeta.
  - change (Nat.iter 0 (step timestep) self) with self. fold S.
    split; [reflexivity|]. cbn [Z.of_nat]. ring.
  - rewrite Nat.iter_succ.
    destruct (@iter_state_shapes timestep self n d m N Hs)
      as (_ & _ & _ & _ & Hpv & Hpa).
    destruct (@step_predators_identity timestep
                (Nat.iter N (step timestep) self) m d i k
                (@iter_identity_noise timestep self N Hid) Hpa Hpv Hi Hk) as [Ea Ev].
    cbn zeta in Ea, Ev, IHa, IHv.
    rewrite Ea, Ev, IHa, IHv. split; [reflexivity|].
    rewrite Nat2Z.inj_succ. unfold Z.succ. rewrite inject_Z_plus. ring.
Qed.

(** ** A particle with zero weights *)

Lemma clip_by_abs_zero (bound x : Q) :
  (0 <= bound)%Q -> (x == 0)%Q -> (clip_by_abs bound x == 0)%Q.
Proof.
  intros Hb Hx. rewrite (clip_by_abs_compat bound Hx).
  apply clip_by_abs_inside. lra.
Qed.

(** X14.  A particle whose three weights [uw[i, :]] are zero feels no
    urgency: its three urgency vectors are zero and, for [u_max] different
    from zero, the acceleration the step stores for it is zero, whatever the
    other particles, the predators and the noise do. *)
Theorem zero_weights_no_acceleration (self : Engine) (timestep : Q)
    (return_urgency_vectors : bool) (i k : nat) :
  let cfg := _cfg self in
  let P := p (_state self) in
  let us := fst (step_urgencies self) in
  let a' := a (_state (snd
              (_step_particles self timestep return_urgency_vectors))) in
  (0 <= a_max cfg)%Q -> ~ (u_max cfg == 0)%Q ->
  (i < axis P 0)%nat -> (k < axis P 1)%nat ->
  (get2 (uw cfg) i 0 == 0)%Q -> (get2 (uw cfg) i 1 == 0)%Q ->
  (get2 (uw cfg) i 2 == 0)%Q ->
  (get2 (fst (fst us)) i k == 0)%Q
  /\ (get2 (snd (fst us)) i k == 0)%Q
  /\ (get2 (snd us) i k == 0)%Q
  /\ (get2 a' i k == 0)%Q.
Proof.
  intros cfg P us a' Hmax _ Hi Hk H0 H1 H2.
  set (D := squareform_pdist P).
  set (self1 := snd (_calculate_urgency1 self D)).
  set (self2 := snd (_calculate_urgency2 self1 D)).
  assert (E1 : (get2 (fst (fst us)) i k == 0)%Q).
  { change (fst (fst us)) with (fst (_calculate_urgency1 self D)).
    rewrite get2_calculate_urgency1 by first [exact Hi | exact Hk].
    fold cfg. rewrite H0. ring. }
  assert (E2 : (get2 (snd (fst us)) i k == 0)%Q).
  { change (snd (fst us)) with (fst (_calculate_urgency2 self1 D)).
    rewrite get2_calculate_urgency2 by first [exact Hi | exact Hk].
    change (_cfg self1) with cfg. rewrite H1. ring. }
  assert (E3 : (get2 (snd us) i k == 0)%Q).
  { change (snd us) with (fst (_calculate_urgency3 self2 D)).
    rewrite get2_calculate_urgency3 by first [exact Hi | exact Hk].
    change (_cfg self2) with cfg. rewrite H2. ring. }
  split; [exact E1|]. split; [exact E2|]. split; [exact E3|].
  unfold a'. rewrite step_particles_a. cbn zeta.
  destruct (step_urgencies_matrix self) as ([S1 _] & _). cbn zeta in S1.
  apply axis_of_shape in S1. destruct S1 as [A0 A1].
  subst us P cfg. clear D self1 self2.
  revert Hmax Hi Hk E1 E2 E3 A0 A1.
  generalize (acceleration_noise self).
  generalize (snd (fst (step_urgencies self))).
  generalize (snd (fst (fst (step_urgencies self)))).
  generalize (fst (fst (fst (step_urgencies self)))).
  generalize (axis (p (_state self)) 0) (axis (p (_state self)) 1).
  generalize (_cfg self).
  clear. intros cfg n d u1 u2 u3 eps Hmax Hi Hk E1 E2 E3 A0 A1.
  subst n d.
  unfold multiply. rewrite get2_zip2d by first [exact Hi | exact Hk].
  unfold clipped_acceleration, inplace_clip_by_abs.
  rewrite get2_map2d by first [exact Hi | exact Hk].
  rewrite clip_by_abs_zero; [ring | exact Hmax |].
  unfold scale. rewrite get2_map2d by first [exact Hi | exact Hk].
  unfold divide_scalar. rewrite get2_map2d by first [exact Hi | exact Hk].
  unfold add. rewrite !get2_zip2d by first [exact Hi | exact Hk].
  rewrite E1, E2, E3. unfold Qdiv. ring.
Qed.

End Stepping.

(** ** The properties on the small scene *)

Lemma scene_well_shaped : well_shaped 2 1 1 quiet_engine.
Proof. split; [lia | repeat split]. Defined.

Lemma scene_isolated :
  isolated (squareform_pdist sqrt_on_squares (p scene)) 5 0
  /\ isolated (squareform_pdist sqrt_on_squares (p scene)) 1 0.
Proof.
  split; intros j Hj Hne; change (j < 2)%nat in Hj;
    assert (E : j = 1%nat) by lia; subst j;
    vm_compute; intros [_ H]; apply H; reflexivity.
Defined.

Lemma scene_unthreatened :
  unthreatened (distances_from_predators sqrt_on_squares scene) 1 0.
Proof.
  intros j Hj. change (j < 1)%nat in Hj.
  assert (E : j = 0%nat) by lia. subst j.
  vm_compute. intros [_ H]. apply H. reflexivity.
Defined.

(** C1.  In the scene the first particle has no other particle within
    [d_max], yet with identity noise its urgency 1 is [-1], its own position
    negated: the particle is pulled to the origin instead of being left
    alone. *)
Theorem isolated_particle_urgency1_not_zero :
  let D := squareform_pdist sqrt_on_squares (p scene) in
  let u1 := fst (fst (fst (step_urgencies sqrt_on_squares quiet_engine))) in
  isolated D (d_max scene_config) 0
  /\ map Qred (row u1 0) = [(-1)%Q]
  /\ ~ Forall (fun e => (e == 0)%Q) (row u1 0).
Proof.
  cbn zeta. split; [exact (proj1 scene_isolated)|].
  split; [vm_compute; reflexivity|].
  intros H. apply Forall_inv in H. vm_compute in H. discriminate H.
Qed.

(** C2.  In the scene with every noise factor equal to [11/10], the
    predator acceleration recorded over two iterations is [1], [11/10],
    [121/100]: the factor drawn for the second predator step is [11/10], and
    it multiplies the acceleration left by the first step, not the initial
    one. *)
Theorem predator_noise_compounds :
  let r := fst (run sqrt_on_squares pow_integral jittery_engine 1 2 0 false) in
  let first := step sqrt_on_squares pow_integral 1 jittery_engine in
  map (fun S => map Qred (data (pred_a S))) (states r)
  = [[1%Q]; [(11 # 10)%Q]; [(121 # 100)%Q]]
  /\ map Qred (data (predator_noise sqrt_on_squares pow_integral 1 first))
     = [(11 # 10)%Q]
  /\ ~ ((121 # 100) == 1 * (11 # 10))%Q.
Proof.
  cbn zeta. split; [vm_compute; reflexivity|].
  split; [vm_compute; reflexivity|].
  intros H. vm_compute in H. discriminate H.
Qed.

Lemma run_states_length_witness :
  Z.of_nat (List.length (states (fst
     (run sqrt_on_squares pow_integral quiet_engine 1 5 5 false)))) = 1%Z
  /\ states (fst (run sqrt_on_squares pow_integral quiet_engine 1 5 5 false))
     = [_state (Nat.iter 5 (step sqrt_on_squares pow_integral 1) quiet_engine)].
Proof.
  apply (@run_states_length sqrt_on_squares pow_integral quiet_engine 1 5 5
           false 2 1 1).
  - exact scene_well_shaped.
  - lia.
Defined.

Lemma run_skip_beyond_iterations_witness :
  let r := run sqrt_on_squares pow_integral quiet_engine 1 3 7 true in
  states (fst r) = []
  /\ urgencies (fst r) = Some []
  /\ snd r = Nat.iter 3 (step sqrt_on_squares pow_integral 1) quiet_engine.
Proof.
  apply (@run_skip_beyond_iterations sqrt_on_squares pow_integral
           quiet_engine 1 3 7 true 2 1 1); [exact scene_well_shaped | lia | lia].
Defined.

Lemma step_particles_velocity_bounded_witness :
  Forall (fun e => (Qabs e <= 2)%Q)
    (data (v (_state (snd
       (_step_particles sqrt_on_squares pow_integral quiet_engine 1 false))))).
Proof.
  apply (@step_particles_velocity_bounded sqrt_on_squares pow_integral
           quiet_engine 1 false).
  vm_compute. discriminate.
Defined.

Lemma step_particles_acceleration_witness :
  let us := fst (step_urgencies sqrt_on_squares jittery_engine) in
  let c := clipped_acceleration scene_config
             (fst (fst us)) (snd (fst us)) (snd us) in
  let eps := acceleration_noise sqrt_on_squares jittery_engine in
  let a' := a (_state (snd
              (_step_particles sqrt_on_squares pow_integral jittery_engine 1 false))) in
  Forall (fun e => (Qabs e <= 3)%Q) (data c)
  /\ a' = multiply c eps
  /\ forall i k,
       (i < 2)%nat -> (k < 1)%nat ->
       (Qabs (get2 c i k) <= 3)%Q
       /\ (get2 a' i k == get2 c i k * get2 eps i k)%Q
       /\ (Qabs (get2 a' i k) <= 3 * Qabs (get2 eps i k))%Q.
Proof.
  apply (@step_particles_acceleration_clipped_then_noised sqrt_on_squares
           pow_integral jittery_engine 1 false).
  vm_compute. discriminate.
Defined.

Lemma zero_distance_pairs_excluded_witness :
  let D := squareform_pdist sqrt_on_squares (p scene) in
  let DP := distances_from_predators sqrt_on_squares scene in
  (get2 (in_range_mask D 10) 0 0 = false
   /\ get2 (u1_weights wide_config D) 0 0 = 0%Q
   /\ get2 (in_range_mask D 10) 0 0 = false
   /\ get2 (u2_weights wide_config D) 0 0 = 0%Q)
  /\ (0 < inject_Z (Z.of_nat
             (get2 (count_nonzero_rows (in_range_mask D 10)) 0 0)))%Q
  /\ (0 < 10 * get2 D 0 1)%Q
  /\ (0 < 10 * get2 DP 0 0)%Q.
Proof.
  destruct (@zero_distance_pairs_excluded sqrt_on_squares wide_config scene)
    as (_ & Hzero & _ & Hcount & Hu2 & Hu3).
  split; [|split; [|split]].
  - apply (Hzero 0%nat 0%nat); [vm_compute; lia | vm_compute; lia | reflexivity].
  - apply (Hcount 0%nat 1%nat); [vm_compute; lia | vm_compute; lia | reflexivity].
  - apply (Hu2 0%nat 1%nat); [vm_compute; lia | vm_compute; lia | reflexivity].
  - apply (Hu3 0%nat 0%nat); [vm_compute; lia | vm_compute; lia | reflexivity].
Defined.

Lemma isolated_urgency2_urgency3_zero_witness :
  let us := fst (step_urgencies sqrt_on_squares quiet_engine) in
  Forall (fun e => (e == 0)%Q) (row (snd (fst us)) 0)
  /\ Forall (fun e => (e == 0)%Q) (row (snd us) 0).
Proof.
  destruct (@isolated_urgency2_urgency3_zero sqrt_on_squares quiet_engine 0%nat)
    as [H2 H3].
  - vm_compute. lia.
  - split.
    + apply H2. exact (proj2 scene_isolated).
    + apply H3. exact scene_unthreatened.
Defined.

Lemma run_urgencies_round_trip_witness :
  let r := fst (run sqrt_on_squares pow_integral quiet_engine 1 2 0 true) in
  exists us,
    urgencies r = Some us
    /\ List.length us = List.length (states r)
    /\ forall k S U, (1 <= k)%nat ->
         nth_error (states r) k = Some S -> nth_error us k = Some U ->
         array_eq (a S)
           (inplace_clip_by_abs
              (scale (add (add (slice U 0) (slice U 1)) (slice U 2))
                 (a_max scene_config / u_max scene_config))
              (a_max scene_config)).
Proof.
  apply (@run_urgencies_round_trip sqrt_on_squares pow_integral
           quiet_engine 1 2 0).
  intros k. reflexivity.
Defined.

Lemma scene_shapes_consistent : ~ shape_mismatch scene scene_config.
Proof.
  intros [H|[H|(n & Hn & H)]].
  - apply H. reflexivity.
  - apply H. reflexivity.
  - injection Hn as <-. apply H. reflexivity.
Defined.

Lemma init_shape_check_witness :
  __init__ scene scene_config quiet = Ok quiet_engine
  /\ exists msg, __init__ scene misshapen_config quiet = Raise (ValueError msg).
Proof.
  split.
  - apply (proj2 (proj2 (init_shape_check scene scene_config quiet))).
    + exact scene_shapes_consistent.
    + discriminate.
  - apply (proj1 (init_shape_check scene misshapen_config quiet)).
    right. right. exists 2%nat. split; [reflexivity | discriminate].
Defined.

(** ** Further properties on the small scene *)

Lemma run_records_everything_witness :
  states (fst (run sqrt_on_squares pow_integral quiet_engine 1 2 0 false))
  = map (fun k => _state (Nat.iter k (step sqrt_on_squares pow_integral 1)
                            quiet_engine))
      (seq 0 3).
Proof.
  apply (proj1 (@run_records_everything sqrt_on_squares pow_integral
                  quiet_engine 1 2 0 2 1 1 scene_well_shaped ltac:(lia))).
Defined.

Lemma run_records_from_skip_witness :
  states (fst (run sqrt_on_squares pow_integral quiet_engine 1 3 2 false))
  = map (fun k => _state (Nat.iter k (step sqrt_on_squares pow_integral 1)
                            quiet_engine))
      (seq 2 2).
Proof.
  apply (proj1 (@run_records_from_skip sqrt_on_squares pow_integral
                  quiet_engine 1 3 2 2 1 1 scene_well_shaped ltac:(lia))).
Defined.

Lemma u1_weights_row_sum_witness :
  let D := squareform_pdist sqrt_on_squares (p scene) in
  (Qsum_upto (axis D 1) (fun j' => get2 (u1_weights wide_config D) 0 j') == 1)%Q.
Proof.
  apply (@u1_weights_row_sum wide_config
           (squareform_pdist sqrt_on_squares (p scene)) 0%nat 1%nat);
    [vm_compute; lia | vm_compute; lia | reflexivity].
Defined.

Lemma repulsion_weights_ramp_witness :
  let D := squareform_pdist sqrt_on_squares (p scene) in
  let DP := distances_from_predators sqrt_on_squares scene in
  ((0 <= get2 (u2_weights wide_config D) 0 1)%Q
   /\ (get2 (u2_weights wide_config D) 0 1 * get2 D 0 1
       == (u2_dopt wide_config - get2 D 0 1) / u2_dopt wide_config)%Q)
  /\ ((0 <= get2 (u3_weights sqrt_on_squares wide_config scene) 0 0)%Q
      /\ (get2 (u3_weights sqrt_on_squares wide_config scene) 0 0 * get2 DP 0 0
          == (u3_dmax wide_config - get2 DP 0 0) / u3_dmax wide_config)%Q).
Proof.
  split.
  - destruct (@repulsion_weights_ramp sqrt_on_squares wide_config scene
                0%nat 1%nat ltac:(vm_compute; lia)) as [H _].
    destruct (H ltac:(vm_compute; lia)) as [Hpos Hin].
    split; [exact Hpos|]. exact (proj1 (Hin eq_refl)).
  - destruct (@repulsion_weights_ramp sqrt_on_squares wide_config scene
                0%nat 0%nat ltac:(vm_compute; lia)) as [_ H].
    destruct (H ltac:(vm_compute; lia)) as [Hpos Hin].
    split; [exact Hpos|]. exact (proj1 (Hin eq_refl)).
Defined.

Lemma scene_state_shapes : state_shapes 2 1 1 scene.
Proof. repeat split. Defined.

Lemma run_preserves_shapes_witness :
  let r := run sqrt_on_squares pow_integral quiet_engine 1 3 0 false in
  Forall (fun S => state_shapes 2 1 1 S /\ ~ shape_mismatch S scene_config)
    (states (fst r))
  /\ _cfg (snd r) = scene_config.
Proof.
  apply (@run_preserves_shapes sqrt_on_squares pow_integral quiet_engine
           1 3 0 false 2 1 1).
  - exact scene_state_shapes.
  - reflexivity.
Defined.

Lemma step_particles_displacement_bounded_witness :
  let S := scene in
  let S' := _state (snd (_step_particles sqrt_on_squares pow_integral
                           quiet_engine 1 false)) in
  (get2 (p S') 0 0 == get2 (p S) 0 0 + get2 (v S') 0 0 * 1)%Q
  /\ (Qabs (get2 (p S') 0 0 - get2 (p S) 0 0)
      <= v_max scene_config * Qabs 1)%Q.
Proof.
  apply (@step_particles_displacement_bounded sqrt_on_squares pow_integral
           quiet_engine 1 false 0%nat 0%nat).
  - vm_compute. discriminate.
  - reflexivity.
  - vm_compute. lia.
  - vm_compute. lia.
Defined.

Lemma run_noise_consumption_witness :
  let r := run sqrt_on_squares pow_integral jittery_engine 1 3 0 false in
  factors (_rand (snd r)) = factors jittery
  /\ cursor (_rand (snd r)) = 27%nat.
Proof.
  apply (@run_noise_consumption sqrt_on_squares pow_integral jittery_engine
           1 3 0 false 2 1 1).
  exact scene_state_shapes.
Defined.

Lemma init_index_error_witness :
  exists msg, __init__ scalar_state scene_config quiet = Raise (IndexError msg).
Proof.
  apply (proj2 (init_index_error scalar_state scene_config quiet)).
  repeat split.
Defined.

Lemma single_neighbour_cohesion_witness :
  let P := p scene in
  let eps := fst (gen_epsilon_matrix jittery (shape P)) in
  let u1 := fst (fst (fst (step_urgencies sqrt_on_squares wide_engine))) in
  (get2 u1 0 0
   == (get2 P 1 0 - get2 P 0 0) * get2 eps 0 0 * u1_p wide_config
      * get2 (uw wide_config) 0 0)%Q.
Proof.
  apply (@single_neighbour_cohesion sqrt_on_squares wide_engine 0%nat 1%nat 0%nat).
  - vm_compute. lia.
  - vm_compute. lia.
  - vm_compute. lia.
  - vm_compute. split; [reflexivity | discriminate].
  - intros j Hj Hne1 Hne0. exfalso. change (j < 2)%nat in Hj. lia.
Defined.

Lemma repulsion_is_mutual_witness :
  let D := squareform_pdist sqrt_on_squares (p scene) in
  get2 (u2_weights wide_config D) 0 1 = get2 (u2_weights wide_config D) 1 0
  /\ (get2 (u2_weights wide_config D) 0 1 * (get2 (p scene) 0 0 - get2 (p scene) 1 0)
      == - (get2 (u2_weights wide_config D) 1 0
            * (get2 (p scene) 1 0 - get2 (p scene) 0 0)))%Q.
Proof.
  apply (@repulsion_is_mutual sqrt_on_squares wide_config (p scene)
           0%nat 1%nat 0%nat); vm_compute; lia.
Defined.

Lemma predators_constant_acceleration_witness :
  let SN := _state (Nat.iter 3 (step sqrt_on_squares pow_integral 1)
                      quiet_engine) in
  (get2 (pred_a SN) 0 0 == get2 (pred_a scene) 0 0)%Q
  /\ (get2 (pred_v SN) 0 0
      == get2 (pred_v scene) 0 0
         + inject_Z (Z.of_nat 3) * (get2 (pred_a scene) 0 0 * 1))%Q.
Proof.
  apply (@predators_constant_acceleration sqrt_on_squares pow_integral
           quiet_engine 1 2 1 1 3 0 0).
  - intros j. reflexivity.
  - exact scene_state_shapes.
  - lia.
  - lia.
Defined.

Lemma zero_weights_no_acceleration_witness :
  let us := fst (step_urgencies sqrt_on_squares indifferent_engine) in
  let a' := a (_state (snd (_step_particles sqrt_on_squares pow_integral
                              indifferent_engine 1 false))) in
  (get2 (fst (fst us)) 0 0 == 0)%Q
  /\ (get2 (snd (fst us)) 0 0 == 0)%Q
  /\ (get2 (snd us) 0 0 == 0)%Q
  /\ (get2 a' 0 0 == 0)%Q.
Proof.
  apply (@zero_weights_no_acceleration sqrt_on_squares pow_integral
           indifferent_engine 1 false 0%nat 0%nat).
  - vm_compute. discriminate.
  - vm_compute. discriminate.
  - vm_compute. lia.
  - vm_compute. lia.
  - reflexivity.
  - reflexivity.
  - reflexivity.
Defined.

Lemma run_urgencies_shapes_witness :
  match urgencies (fst (run sqrt_on_squares pow_integral quiet_engine 1 2 0 true)) with
  | Some us => Forall (fun U => shape U = [3; 2; 1]%nat) us
  | None => False
  end.
Proof.
  apply (@run_urgencies_shapes sqrt_on_squares pow_integral quiet_engine
           1 2 0 2 1 1).
  exact scene_well_shaped.
Defined.
